(** * mne.datasets.eegbci: a shallow embedding of [eegbci.py]

    The module fetches the EEGBCI (EEGMMI) recordings with a download
    manager, caches them under a configurable directory and standardises
    channel names.  This development embeds [load_data] and [standardize]
    and the library functions they call ([re.match] on the module's
    pattern, [posixpath.join], [str.strip], [str.upper], slicing, integer
    formatting), and states the module's documented behaviour as theorems.

    Conventions.  URLs, paths and file names are [string]s, Python
    strings whose characters are code points below 256; on that range
    [\d] is the class [0-9].  Channel names are Python strings in full,
    lists of Unicode code points, and the upper-case mapping of the
    interpreter's character database from code point 128 on is a
    parameter.  A Python [int] is a [Z].  [os.path] is [posixpath]. *)

From Stdlib Require Import ZArith Ascii String List Bool Lia DecimalString.
From stdpp Require Import base option list gmap strings.

Local Open Scope Z_scope.

(** ** Strings *)

Module Str.

Definition len (s : string) : Z := Z.of_nat (String.length s).

(** [s.startswith(p)] *)
Definition startswith (s p : string) : bool := String.prefix p s.

(** [s[lo:hi]] for already normalised bounds [0 <= lo], [0 <= hi]. *)
Definition sub (s : string) (lo hi : Z) : string :=
  String.substring (Z.to_nat lo) (Z.to_nat (hi - lo)) s.

(** Python's treatment of one slice bound: a negative bound counts from
    the end, and the result is clamped to [0, len]. *)
Definition bound (n : Z) (i : Z) : Z :=
  let j := if i <? 0 then i + n else i in
  Z.max 0 (Z.min n j).

(** [s[lo:hi]] with optional bounds, step 1. *)
Definition slice (s : string) (lo hi : option Z) : string :=
  let n := len s in
  let l := match lo with Some i => bound n i | None => 0 end in
  let h := match hi with Some i => bound n i | None => n end in
  sub s l h.

(** [s.endswith(p)] *)
Definition endswith (s p : string) : bool :=
  (len p <=? len s) && String.eqb (sub s (len s - len p) (len s)) p.

Definition mem (c : ascii) (chars : string) : bool :=
  existsb (Ascii.eqb c) (list_ascii_of_string chars).

(** [s.lstrip(chars)] *)
Fixpoint lstrip (s chars : string) : string :=
  match s with
  | String c s' => if mem c chars then lstrip s' chars else s
  | EmptyString => EmptyString
  end.

(** [s.rstrip(chars)] *)
Fixpoint rstrip (s chars : string) : string :=
  match s with
  | String c s' =>
      match rstrip s' chars with
      | EmptyString => if mem c chars then EmptyString else String c EmptyString
      | r => String c r
      end
  | EmptyString => EmptyString
  end.

(** [s.strip(chars)] removes the characters of [chars] at both ends. *)
Definition strip (s chars : string) : string := rstrip (lstrip s chars) chars.

Fixpoint zeros (n : nat) : string :=
  match n with O => EmptyString | S n' => String "0" (zeros n') end.

(** The decimal numeral of a natural number, [str(n)] for [0 <= n]. *)
Definition of_N (n : N) : string := NilZero.string_of_uint (N.to_uint n).

(** [format(n, '0<width>d')]: decimal, sign first, then zeros up to the
    field width, then the digits; a numeral wider than the field is
    left as it is. *)
Definition format_0d (width : nat) (n : Z) : string :=
  let sign := if n <? 0 then "-" else "" in
  let digits := of_N (Z.abs_N n) in
  let pad := (width - String.length sign - String.length digits)%nat in
  sign +:+ zeros pad +:+ digits.

End Str.

(** ** Channel names: strings of Unicode code points

    A channel name is a Python [str] in full, a sequence of Unicode code
    points.  [str.upper] replaces each code point by its full upper-case
    mapping, one or more code points taken from the character database
    of the interpreter, whatever its neighbours are; below 128 the
    mapping sends [a-z] to [A-Z] and changes nothing else.  The database
    is not part of the sources at hand: its mapping from 128 on is the
    parameter [upper_high] of [upper]. *)

Abbreviation ustring := (list N).

Module UStr.

(** The code points of a literal. *)
Definition of_string (s : string) : ustring :=
  map N_of_ascii (list_ascii_of_string s).

Definition len (s : ustring) : Z := Z.of_nat (length s).

(** [s[lo:hi]] with optional bounds, step 1. *)
Definition slice (s : ustring) (lo hi : option Z) : ustring :=
  let n := len s in
  let l := match lo with Some i => Str.bound n i | None => 0 end in
  let h := match hi with Some i => Str.bound n i | None => n end in
  take (Z.to_nat (h - l)) (drop (Z.to_nat l) s).

(** [s.startswith(p)] *)
Definition startswith (s p : ustring) : bool :=
  bool_decide (take (length p) s = p).

(** [s.endswith(p)] *)
Definition endswith (s p : ustring) : bool :=
  (length p <=? length s)%nat && bool_decide (drop (length s - length p) s = p).

Definition mem (c : N) (chars : ustring) : bool := bool_decide (c ∈ chars).

(** [s.lstrip(chars)] *)
Fixpoint lstrip (s chars : ustring) : ustring :=
  match s with
  | c :: s' => if mem c chars then lstrip s' chars else s
  | [] => []
  end.

(** [s.rstrip(chars)] *)
Fixpoint rstrip (s chars : ustring) : ustring :=
  match s with
  | c :: s' =>
      match rstrip s' chars with
      | [] => if mem c chars then [] else [c]
      | r => c :: r
      end
  | [] => []
  end.

(** [s.strip(chars)] removes the characters of [chars] at both ends. *)
Definition strip (s chars : ustring) : ustring := rstrip (lstrip s chars) chars.

(** The upper-case mapping below 128. *)
Definition upper_ascii (c : N) : N :=
  if ((97 <=? c) && (c <=? 122))%N then (c - 32)%N else c.

Definition upper_char (upper_high : N -> ustring) (c : N) : ustring :=
  if (c <? 128)%N then [upper_ascii c] else upper_high c.

(** [s.upper()] *)
Definition upper (upper_high : N -> ustring) (s : ustring) : ustring :=
  flat_map (upper_char upper_high) s.

End UStr.

Abbreviation ustr := UStr.of_string.

(** ** Paths *)

(** [posixpath.join(a, *p)]: a component that starts with a slash resets
    the result, otherwise it is appended after exactly one separator. *)
Fixpoint op_join (a : string) (p : list string) : string :=
  match p with
  | [] => a
  | b :: p' =>
      let a' :=
        if Str.startswith b "/" then b
        else if String.eqb a "" || Str.endswith a "/" then a +:+ b
        else a +:+ "/" +:+ b in
      op_join a' p'
  end.

Arguments op_join : simpl never.

(** A directory with the separator [op_join] puts after it. *)
Definition with_sep (d : string) : string :=
  if String.eqb d "" || Str.endswith d "/" then d else d +:+ "/".

(** ** The relative file name of a run (lines 187-189) *)

Definition EEGMI_URL : string := "https://physionet.org/files/eegmmidb/1.0.0/".

(** [f'S{subject:03d}/S{subject:03d}R{run:02d}.edf'] *)
Definition file_part (subject run : Z) : string :=
  "S" +:+ Str.format_0d 3 subject +:+ "/S" +:+ Str.format_0d 3 subject
      +:+ "R" +:+ Str.format_0d 2 run +:+ ".edf".

Arguments file_part : simpl never.

(** ** Regular expressions: the fragment of [re] the module uses

    [re.match] is a backtracking matcher anchored at the start of the
    subject and not at its end.  Repetition is greedy: the longest run is
    tried first and given back one character at a time.  The module's
    pattern repeats single-character atoms only, so repetition is defined
    on atoms. *)

Module Re.

Inductive atom : Type :=
| Chr (c : ascii)   (* a literal character *)
| Any               (* [.] without DOTALL: anything but a line feed *)
| Dig.              (* [\d] *)

Definition LF : ascii := "010"%char.

Definition is_digit (c : ascii) : bool :=
  let n := N_of_ascii c in ((48 <=? n) && (n <=? 57))%N.

Definition amatch (a : atom) (c : ascii) : bool :=
  match a with
  | Chr x => Ascii.eqb x c
  | Any => negb (Ascii.eqb c LF)
  | Dig => is_digit c
  end.

Inductive regex : Type :=
| Atom (a : atom)
| Lit (s : string)            (* a run of literal characters *)
| Seq (r1 r2 : regex)
| Opt (r : regex)             (* [r?] *)
| Star (a : atom)             (* [a*] *)
| Plus (a : atom)             (* [a+] *)
| Group (i : nat) (r : regex) (* the capturing group filling [groups()[i]] *).

(** [groups()]: one entry per capturing group, [None] for a group that
    took no part in the match. *)
Abbreviation captures := (list (option string)).

Fixpoint strip_prefix (p s : string) : option string :=
  match p, s with
  | EmptyString, _ => Some s
  | String a p', String b s' => if Ascii.eqb a b then strip_prefix p' s' else None
  | String _ _, EmptyString => None
  end.

(** The text between the position where the subject was [s] and the
    later position where it is [s']. *)
Definition consumed (s s' : string) : string :=
  String.substring 0 (String.length s - String.length s') s.

Section Matcher.
Context {R : Type}.

(** Greedy [a*], then the continuation; on failure of the continuation
    the last character taken is given back. *)
Fixpoint star (a : atom) (s : string) (k : string -> option R) : option R :=
  match s with
  | String c s' =>
      if amatch a c then
        match star a s' k with
        | Some r => Some r
        | None => k s
        end
      else k s
  | EmptyString => k s
  end.

Fixpoint rmatch (r : regex) (s : string) (g : captures)
         (k : string -> captures -> option R) : option R :=
  match r with
  | Atom a =>
      match s with
      | String c s' => if amatch a c then k s' g else None
      | EmptyString => None
      end
  | Lit l =>
      match strip_prefix l s with
      | Some s' => k s' g
      | None => None
      end
  | Seq r1 r2 => rmatch r1 s g (fun s1 g1 => rmatch r2 s1 g1 k)
  | Opt r1 =>
      match rmatch r1 s g k with
      | Some x => Some x
      | None => k s g
      end
  | Star a => star a s (fun s' => k s' g)
  | Plus a =>
      match s with
      | String c s' => if amatch a c then star a s' (fun s'' => k s'' g) else None
      | EmptyString => None
      end
  | Group i r1 =>
      rmatch r1 s g (fun s' g' => k s' (<[i := Some (consumed s s')]> g'))
  end.
End Matcher.

(** [re.compile(r).match(s)], reduced to [None] or the groups. *)
Definition re_match (r : regex) (ngroups : nat) (s : string) : option captures :=
  rmatch r s (replicate ngroups None) (fun _ g => Some g).

End Re.

(** The pattern of line 167, as written. *)
Definition pattern_text : string :=
  "(?:https?://.*)(files)/(eegmmidb)/(\d+\.\d+\.\d+)/?".

(** [re.compile(pattern)]: the pattern read off [pattern_text], a
    non-capturing prefix, three capturing groups separated by slashes and
    an optional final slash. *)
Definition pattern : Re.regex :=
  Re.Seq (Re.Seq (Re.Lit "http") (Re.Seq (Re.Opt (Re.Atom (Re.Chr "s")))
                 (Re.Seq (Re.Lit "://") (Re.Star Re.Any))))
 (Re.Seq (Re.Group 0 (Re.Lit "files"))
 (Re.Seq (Re.Atom (Re.Chr "/"))
 (Re.Seq (Re.Group 1 (Re.Lit "eegmmidb"))
 (Re.Seq (Re.Atom (Re.Chr "/"))
 (Re.Seq (Re.Group 2
            (Re.Seq (Re.Plus Re.Dig) (Re.Seq (Re.Atom (Re.Chr "."))
            (Re.Seq (Re.Plus Re.Dig) (Re.Seq (Re.Atom (Re.Chr "."))
                    (Re.Plus Re.Dig))))))
         (Re.Opt (Re.Atom (Re.Chr "/")))))))).

(** [re.compile(pattern).match(base_url)] with its three groups. *)
Definition match_base_url (base_url : string) : option (list (option string)) :=
  Re.re_match pattern 3 base_url.

(** ** The world [load_data] runs in

    The function reads and writes the local file system and the
    configuration store, and talks to the network through the download
    manager.  A [world] holds that state together with a log of the calls
    made, most recent last, and the surroundings the run cannot change:
    the remote server, the bundled checksum file, the user. *)

Inductive event : Type :=
| EvGetPath (path : option string) (key name : string)
| EvCreate (path base_url : string) (retry_if_failed : nat)
| EvLoadRegistry
| EvRemove (destination : string)
| EvFetch (fname : string)
| EvTransfer (url : string)
| EvPathUpdate (path : string) (update_path : option bool) (key name : string).

(** A file's content is identified with its checksum. *)
Abbreviation checksum := N.

Record world : Type := World {
  files : gmap string checksum;   (* regular files on disk *)
  config : gmap string string;    (* the configuration store *)
  trace : list event;
  remote : nat -> string -> option checksum;
    (* what a transfer of a URL started at a given time delivers, if anything *)
  bundled : gmap string checksum; (* data/eegbci_checksums.txt *)
  home : string;                  (* the user's home directory *)
  normalize : string -> string;   (* path normalisation *)
  answer : nat -> bool            (* the user's reply to a prompt at a given time *)
}.

Definition set_files (f : gmap string checksum -> gmap string checksum) (w : world) : world :=
  World (f (files w)) (config w) (trace w) (remote w) (bundled w) (home w)
        (normalize w) (answer w).
Definition set_config (f : gmap string string -> gmap string string) (w : world) : world :=
  World (files w) (f (config w)) (trace w) (remote w) (bundled w) (home w)
        (normalize w) (answer w).
Definition record (e : event) (w : world) : world :=
  World (files w) (config w) (trace w ++ [e]) (remote w) (bundled w) (home w)
        (normalize w) (answer w).

(** The clock: the number of calls logged so far. *)
Definition now (w : world) : nat := length (trace w).

Inductive exn : Type :=
| ValueError (msg : string)
| TypeError (msg : string)
| FileNotFoundError (path : string)
| TransferError (url : string)      (* transfer failed, retries exhausted *)
| IntegrityError (fname : string).  (* checksum mismatch *)

Inductive result (A : Type) : Type :=
| Ok (a : A)
| Raise (e : exn).
Arguments Ok {A} a.
Arguments Raise {A} e.

(** Computations: a result or an exception, and the world left behind. *)
Definition M (A : Type) : Type := world -> result A * world.

Definition ret {A} (a : A) : M A := fun w => (Ok a, w).
Definition raise {A} (e : exn) : M A := fun w => (Raise e, w).
Definition bind {A B} (m : M A) (f : A -> M B) : M B :=
  fun w => match m w with
           | (Ok a, w') => f a w'
           | (Raise e, w') => (Raise e, w')
           end.
Definition log (e : event) : M unit := fun w => (Ok tt, record e w).

Notation "x <- m ;; k" := (bind m (fun x => k))
  (at level 100, m at next level, right associativity).
Notation "m ;;; k" := (bind m (fun _ => k))
  (at level 100, right associativity).

(** [for x in xs: ys.append(body(x))] *)
Fixpoint for_each {A B} (body : A -> M B) (xs : list A) : M (list B) :=
  match xs with
  | [] => ret []
  | x :: xs' => y <- body x ;; ys <- for_each body xs' ;; ret (y :: ys)
  end.

(** *** The file system: [os.path.isfile], [os.remove] *)

Definition isfile (p : string) : M bool :=
  fun w => (Ok (bool_decide (is_Some (files w !! p))), w).

Definition os_remove (p : string) : M unit :=
  fun w => match files w !! p with
           | Some _ => (Ok tt, record (EvRemove p) (set_files (delete p) w))
           | None => (Raise (FileNotFoundError p), w)
           end.

(** *** Path resolution and persistence ([mne/datasets/utils.py]) *)

(** Modelled from the spec: the value [_get_path] returns, section 4.1.
    An explicit path is normalised and returned; otherwise the
    configuration key is looked up; if it is absent, the default
    directory [mne_data] under the user's home is used. *)
Definition resolve_path (path : option string) (key : string) (w : world) : string :=
  match path with
  | Some p => normalize w p
  | None =>
      match config w !! key with
      | Some v => v
      | None => op_join (home w) ["mne_data"]
      end
  end.

(** Modelled from the spec: [_get_path] is imported from [..utils], which
    is not part of the sources at hand.  Section 4.1: the call resolves
    the cache root and has no failure of its own. *)
Definition _get_path (path : option string) (key name : string) : M string :=
  log (EvGetPath path key name) ;;;
  fun w => (Ok (resolve_path path key w), w).

(** Modelled from the spec: [_do_path_update] is imported from [..utils],
    which is not part of the sources at hand.  Sections 4.1 and 4.3: the
    resolved path is stored under the key when persistence is requested,
    explicitly or by the user's confirmation when [update_path] is unset;
    nothing happens when the path is already stored or persistence is not
    requested. *)
Definition _do_path_update (path : string) (update_path : option bool)
           (key name : string) : M unit :=
  fun w =>
    let w1 := record (EvPathUpdate path update_path key name) w in
    if bool_decide (config w !! key = Some path) then (Ok tt, w1)
    else
      let requested :=
        match update_path with
        | Some b => b
        | None => answer w (now w)
        end in
      if requested then (Ok tt, set_config (insert key path) w1) else (Ok tt, w1).

(** *** The download manager ([pooch]) *)

Record fetcher : Type := Fetcher {
  f_path : string;
  f_base_url : string;
  f_retry : nat;
  f_registry : gmap string checksum
}.

(** Modelled from the spec: [pooch.create] of the download manager, a
    library that is not part of the sources at hand; section 6.  The
    registry is empty until one is loaded. *)
Definition pooch_create (path base_url : string) (retry_if_failed : nat) : M fetcher :=
  log (EvCreate path base_url retry_if_failed) ;;;
  ret (Fetcher path base_url retry_if_failed ∅).

(** [pkg_resources.resource_stream('mne', 'data/eegbci_checksums.txt')] *)
Definition resource_stream : M (gmap string checksum) :=
  fun w => (Ok (bundled w), w).

(** Modelled from the spec: [fetcher.load_registry] of the download
    manager, not part of the sources at hand; section 6. *)
Definition load_registry (f : fetcher) (registry : gmap string checksum) : M fetcher :=
  log EvLoadRegistry ;;;
  ret (Fetcher (f_path f) (f_base_url f) (f_retry f) (registry ∪ f_registry f)).

(** Modelled from the spec: the transfer inside [fetcher.fetch], not part
    of the sources at hand; section 4.3.  A failed attempt is repeated
    while retries are left, and the failure is raised when none is. *)
Fixpoint download (retries : nat) (url destination : string) : M unit :=
  fun w =>
    let w1 := record (EvTransfer url) w in
    match remote w (now w) url with
    | Some c => (Ok tt, set_files (insert destination c) w1)
    | None =>
        match retries with
        | O => (Raise (TransferError url), w1)
        | S r => download r url destination w1
        end
    end.

(** Modelled from the spec: [fetcher.fetch] of the download manager, not
    part of the sources at hand; sections 4.3 and 6.  The destination is
    [local_dir / relative_path]; a missing destination is
    transferred from [base_url + relative_path] with the configured
    retries; the file is then verified against the recorded checksum and
    a mismatch is fatal; the local path is returned.  A name without a
    recorded checksum cannot be verified and is refused at once. *)
Definition fetch (f : fetcher) (fname : string) : M string :=
  log (EvFetch fname) ;;;
  let destination := op_join (f_path f) [fname] in
  match f_registry f !! fname with
  | None => raise (ValueError "File is not in the registry.")
  | Some expected =>
      present <- isfile destination ;;
      (if present then ret tt
       else download (f_retry f) (f_base_url f +:+ fname) destination) ;;;
      fun w =>
        if bool_decide (files w !! destination = Some expected)
        then (Ok destination, w)
        else (Raise (IntegrityError fname), w)
  end.

(** ** [load_data] (lines 97-195) *)

(** [runs : int | list of int] *)
Inductive runs_arg : Type :=
| RunInt (run : Z)
| RunList (runs : list Z).

Definition url_error : string :=
  "base_url does not match the expected EEGMI folder structure. Please notify MNE-Python developers.".

Definition config_key : string := "MNE_DATASETS_EEGBCI_PATH".
Definition folder : string := "MNE-eegbci-data".
Definition name : string := "EEGBCI".

(** The star-argument [*match.groups()] of [op.join]: every component has
    to be a string. *)
Fixpoint components (groups : list (option string)) : result (list string) :=
  match groups with
  | [] => Ok []
  | Some s :: gs =>
      match components gs with
      | Ok ss => Ok (s :: ss)
      | Raise e => Raise e
      end
  | None :: _ => Raise (TypeError "expected str, bytes or os.PathLike object, not NoneType")
  end.

(** Lines 167-172: the cache directory for the resolved cache root
    [path], or the error raised for a URL that does not match. *)
Definition base_path (path base_url : string) : result string :=
  match match_base_url base_url with
  | None => Raise (ValueError url_error)
  | Some groups =>
      match components groups with
      | Ok parts => Ok (op_join path (folder :: parts))
      | Raise e => Raise e
      end
  end.

Definition lift {A} (r : result A) : M A := fun w => (r, w).

(** Lines 173-184: the download manager with its registry loaded. *)
Definition make_fetcher (base_path base_url : string) : M fetcher :=
  f <- pooch_create base_path base_url 2 ;;
  registry <- resource_stream ;;
  load_registry f registry.

(** What the loop of [load_data] works with: the resolved cache root
    [path], the cache directory [base_path] and the [fetcher]. *)
Record context : Type := Context {
  c_path : string;
  c_base_path : string;
  c_fetcher : fetcher
}.

(** Lines 161-184, everything before the loop. *)
Definition prepare (path : option string) (base_url : string) : M context :=
  path <- _get_path path config_key name ;;
  base_path <- lift (base_path path base_url) ;;
  f <- make_fetcher base_path base_url ;;
  ret (Context path base_path f).

(** Lines 192-194: the fetch of one file, then the path update. *)
Definition fetch_and_update (subject : Z) (c : context)
           (update_path : option bool) (run : Z) : M string :=
  data_path <- fetch (c_fetcher c) (file_part subject run) ;;
  _do_path_update (c_path c) update_path config_key name ;;;
  ret data_path.

(** The destination of a run, line 189. *)
Definition destination (subject : Z) (c : context) (run : Z) : string :=
  op_join (c_base_path c) [file_part subject run].

(** Lines 188-194, the body of the loop. *)
Definition fetch_run (subject : Z) (c : context)
           (force_update : bool) (update_path : option bool) (run : Z) : M string :=
  let destination := destination subject c run in
  present <- (if force_update then isfile destination else ret false) ;;
  (if present then os_remove destination else ret tt) ;;;
  fetch_and_update subject c update_path run.

(** Lines 158-159: a value that is not iterable is wrapped in a list. *)
Definition run_list (runs : runs_arg) : list Z :=
  match runs with
  | RunInt r => [r]
  | RunList l => l
  end.

Definition load_data (subject : Z) (runs : runs_arg) (path : option string)
           (force_update : bool) (update_path : option bool) (base_url : string)
  : M (list string) :=
  let runs := run_list runs in
  c <- prepare path base_url ;;
  for_each (fetch_run subject c force_update update_path) runs.

(** ** [standardize] (lines 198-215) *)

Section Standardize.

(** The upper-case mapping of the character database from 128 on. *)
Variable upper_high : N -> ustring.

(** The body of the loop, lines 208-213. *)
Definition std_name (name : ustring) : ustring :=
  let std_name := UStr.strip name (ustr ".") in
  let std_name := UStr.upper upper_high std_name in
  let std_name :=
    if UStr.endswith std_name (ustr "Z")
    then UStr.slice std_name None (Some (-1)) ++ ustr "z" else std_name in
  let std_name :=
    if UStr.startswith std_name (ustr "FP")
    then ustr "Fp" ++ UStr.slice std_name (Some 2) None else std_name in
  std_name.

(** Lines 206-214: the dictionary [rename] after the loop over
    [raw.ch_names], started from [dict()]. *)
Fixpoint rename_loop (ch_names : list ustring) (rename : gmap ustring ustring)
  : gmap ustring ustring :=
  match ch_names with
  | [] => rename
  | name :: rest => rename_loop rest (<[name := std_name name]> rename)
  end.

(** The mapping [standardize] hands to [raw.rename_channels]. *)
Definition standardize (ch_names : list ustring) : gmap ustring ustring :=
  rename_loop ch_names ∅.

End Standardize.

(** ** Reference definitions

    What the documentation says, written independently of the code above,
    for comparison with it. *)

Module Spec.

(** *** File names: zero-padded decimal fields *)

Definition digit (d : Z) : ascii := ascii_of_N (48 + Z.to_N d).

(** The three-digit numeral of [0 <= n < 1000]. *)
Definition padded3 (n : Z) : string :=
  String (digit (n / 100)) (String (digit (n / 10 mod 10))
         (String (digit (n mod 10)) EmptyString)).

(** The two-digit numeral of [0 <= n < 100]. *)
Definition padded2 (n : Z) : string :=
  String (digit (n / 10)) (String (digit (n mod 10)) EmptyString).

Definition relative_path (subject run : Z) : string :=
  "S" +:+ padded3 subject +:+ "/S" +:+ padded3 subject
      +:+ "R" +:+ padded2 run +:+ ".edf".

(** *** Channel names, section 4.4 *)

(** The code points of the characters involved: [.] is 46, [Z] is 90,
    [z] is 122, [F] is 70, [P] is 80 and [p] is 112. *)
Definition is_period (c : N) : bool := (c =? 46)%N.

Fixpoint drop_periods (l : ustring) : ustring :=
  match l with
  | c :: l' => if is_period c then drop_periods l' else l
  | [] => []
  end.

(** Periods removed at the front, then at the back. *)
Definition strip_periods (s : ustring) : ustring :=
  rev (drop_periods (rev (drop_periods s))).

(** A final [Z] becomes [z]. *)
Fixpoint final_Z (s : ustring) : ustring :=
  match s with
  | [] => []
  | [c] => if (c =? 90)%N then [122%N] else [c]
  | c :: s' => c :: final_Z s'
  end.

(** A leading [FP] becomes [Fp]. *)
Definition leading_FP (s : ustring) : ustring :=
  match s with
  | x :: y :: r =>
      if ((x =? 70) && (y =? 80))%N then 70%N :: 112%N :: r else s
  | _ => s
  end.

Definition standard_name (upper_high : N -> ustring) (s : ustring) : ustring :=
  leading_FP (final_Z (UStr.upper upper_high (strip_periods s))).

(** *** The shape of an accepted base URL *)

Fixpoint all (f : ascii -> bool) (s : string) : bool :=
  match s with
  | String c s' => f c && all f s'
  | EmptyString => true
  end.

(** A non-empty run of decimal digits. *)
Definition number (s : string) : Prop :=
  s <> EmptyString /\ all Re.is_digit s = true.

(** [digits.digits.digits] *)
Definition version (v : string) : Prop :=
  exists d1 d2 d3, v = d1 +:+ "." +:+ d2 +:+ "." +:+ d3
                   /\ number d1 /\ number d2 /\ number d3.

(** A scheme, a middle part [mid] subject to [ok], the two literal
    segments, a version, and anything after it. *)
Definition url_shape (ok : string -> Prop) (url : string) : Prop :=
  exists scheme mid v rest,
    url = scheme +:+ mid +:+ "files/eegmmidb/" +:+ v +:+ rest
    /\ (scheme = "http://" \/ scheme = "https://")
    /\ ok mid /\ version v.

(** The shape with any characters at all between scheme and segments. *)
Definition any_middle (url : string) : Prop := url_shape (fun _ => True) url.

(** The shape with no line feed between scheme and segments. *)
Definition one_line_middle (url : string) : Prop :=
  url_shape (fun mid => all (fun c => negb (Ascii.eqb c Re.LF)) mid = true) url.

(** *** The cache directory, section 4.2:
    [cache_root / fixed_subfolder / name / version] *)
Definition local_dir (cache_root name version : string) : string :=
  op_join cache_root [folder; name; version].

End Spec.

(** ** What a match is

    The relation [matches r s g g'] says that [r] matches exactly the
    text [s] and turns the groups [g] into [g'].  It does not say which
    of several matches the matcher finds. *)

Inductive matches : Re.regex -> string -> list (option string)
                    -> list (option string) -> Prop :=
| m_atom a c g :
    Re.amatch a c = true -> matches (Re.Atom a) (String c EmptyString) g g
| m_lit l g : matches (Re.Lit l) l g g
| m_seq r1 r2 s1 s2 g g1 g2 :
    matches r1 s1 g g1 -> matches r2 s2 g1 g2 ->
    matches (Re.Seq r1 r2) (s1 +:+ s2) g g2
| m_opt_skip r g : matches (Re.Opt r) EmptyString g g
| m_opt_take r s g g1 : matches r s g g1 -> matches (Re.Opt r) s g g1
| m_star a s g : Spec.all (Re.amatch a) s = true -> matches (Re.Star a) s g g
| m_plus a s g :
    s <> EmptyString -> Spec.all (Re.amatch a) s = true -> matches (Re.Plus a) s g g
| m_group i r s g g1 :
    matches r s g g1 -> matches (Re.Group i r) s g (<[i := Some s]> g1).

(** ** Observations on worlds *)

(** Two worlds with the same server, bundled registry, home directory,
    normalisation and user. *)
Definition same_surroundings (w w' : world) : Prop :=
  remote w' = remote w /\ bundled w' = bundled w /\ home w' = home w
  /\ normalize w' = normalize w /\ answer w' = answer w.

Definition is_transfer (e : event) : bool :=
  match e with EvTransfer _ => true | _ => false end.

Definition is_removal (e : event) : bool :=
  match e with EvRemove _ => true | _ => false end.

(** The fetcher of a context works in the context's cache directory. *)
Definition coherent (c : context) : Prop :=
  f_path (c_fetcher c) = c_base_path c.

(** The URL a run is transferred from. *)
Definition run_url (c : context) (subject run : Z) : string :=
  f_base_url (c_fetcher c) +:+ file_part subject run.

(** The calls of one iteration of the loop that ends well: the removal
    if there is one, the fetch with its [transfers] transfer attempts,
    the path update. *)
Definition iteration (subject : Z) (c : context) (update_path : option bool)
           (run : Z) (removal : bool) (transfers : nat) : list event :=
  (if removal then [EvRemove (destination subject c run)] else [])
    ++ [EvFetch (file_part subject run)]
    ++ replicate transfers (EvTransfer (run_url c subject run))
    ++ [EvPathUpdate (c_path c) update_path config_key name].

(** The calls of a loop: per run, whether a removal took place and
    how many transfers were made. *)
Definition loop_trace (subject : Z) (c : context) (update_path : option bool)
           (runs : list Z) (its : list (bool * nat)) : list event :=
  concat (zip_with (fun run it => iteration subject c update_path run it.1 it.2) runs its).

(** The calls made before the loop. *)
Definition preparation (path : option string) (c : context) : list event :=
  [EvGetPath path config_key name;
   EvCreate (c_base_path c) (f_base_url (c_fetcher c)) 2;
   EvLoadRegistry].

(** ** A world for examples

    The PhysioNet server delivers the three imagery runs of subject 1,
    after two failed transfers; nothing is cached or configured yet. *)

Definition demo_registry : gmap string checksum :=
  list_to_map [(file_part 1 4, 4%N); (file_part 1 10, 10%N); (file_part 1 14, 14%N)].

Definition demo_server (t : nat) (url : string) : option checksum :=
  if (t <? 6)%nat then None
  else (list_to_map [(EEGMI_URL +:+ file_part 1 4, 4%N);
                     (EEGMI_URL +:+ file_part 1 10, 10%N);
                     (EEGMI_URL +:+ file_part 1 14, 14%N)] : gmap string checksum) !! url.

Definition demo_world : world :=
  World ∅ ∅ [] demo_server demo_registry "/home/user" (fun p => p) (fun _ => true).

(** A URL with a line feed between the scheme and the segments. *)
Definition lf_url : string :=
  "http://host/" +:+ String Re.LF "files/eegmmidb/1.0.0/".

(** The context [load_data] works with in the demo world for the
    default URL. *)
Definition demo_context : context :=
  let bp := "/home/user/mne_data/MNE-eegbci-data/files/eegmmidb/1.0.0" in
  Context "/home/user/mne_data" bp (Fetcher bp EEGMI_URL 2 demo_registry).

(** The world after a first, successful call. *)
Definition demo_world_cached : world :=
  (load_data 1 (RunList [4; 10; 14]) None false None EEGMI_URL demo_world).2.

(** ** [data_path] (lines 20-93), the deprecated single-URL entry point *)

(** [s.rfind(c)] for a one-character [c]: the last index of [c] in [s],
    or [-1]. *)
Fixpoint rfind_from (s : string) (c : ascii) (i last : Z) : Z :=
  match s with
  | String x s' => rfind_from s' c (i + 1) (if Ascii.eqb x c then i else last)
  | EmptyString => last
  end.

Definition rfind (s : string) (c : ascii) : Z := rfind_from s c 0 (-1).

(** [sep * n] *)
Fixpoint sep_times (n : nat) : string :=
  match n with
  | O => EmptyString
  | S n' => String "/" (sep_times n')
  end.

(** [posixpath.dirname(p)]: everything up to the last slash, without
    the trailing slashes unless nothing else is left. *)
Definition op_dirname (p : string) : string :=
  let i := rfind p "/" + 1 in
  let head := Str.slice p None (Some i) in
  if negb (String.eqb head "") && negb (String.eqb head (sep_times (String.length head)))
  then Str.rstrip head "/"
  else head.

Section DataPath.

(** The helpers imported from [...utils] are not part of the sources at
    hand, and [os.path.isdir] and [os.makedirs] act on directories, which
    a [world] does not record: all four are left open, and what is proved
    of [data_path] holds whatever they do.  [_url_to_local_path] computes
    a path from its arguments or raises. *)
Variable _url_to_local_path : string -> string -> result string.
Variable _fetch_file : string -> string -> M unit.
Variable isdir : string -> M bool.
Variable makedirs : string -> M unit.

(** Lines 84-89: fetch the file. *)
Definition fetch_if_needed (url destination : string) (force_update : bool) : M unit :=
  present <- isfile destination ;;
  if negb present || force_update then
    present <- isfile destination ;;
    (if present then os_remove destination else ret tt) ;;;
    there <- isdir (op_dirname destination) ;;
    (if negb there then makedirs (op_dirname destination) else ret tt) ;;;
    _fetch_file url destination
  else ret tt.

Definition data_path (url : string) (path : option string) (force_update : bool)
           (update_path : option bool) : M (list string) :=
  let key := "MNE_DATASETS_EEGBCI_PATH" in
  let name := "EEGBCI" in
  path <- _get_path path key name ;;
  destination <- lift (_url_to_local_path url (op_join path ["MNE-eegbci-data"])) ;;
  let destinations := [destination] in
  fetch_if_needed url destination force_update ;;;
  _do_path_update path update_path key name ;;;
  ret destinations.

End DataPath.

(** ** Further observations *)

(** The valid subjects and runs, as documented in lines 106-120. *)
Definition valid_subject (subject : Z) : Prop := 1 <= subject <= 109.
Definition valid_run (run : Z) : Prop := 1 <= run <= 14.

(** A name with a period neither at the front nor at the back. *)
Definition head_ok (s : ustring) : bool :=
  match s with
  | c :: _ => negb (Spec.is_period c)
  | [] => true
  end.

Fixpoint last_ok (s : ustring) : bool :=
  match s with
  | [] => true
  | [c] => negb (Spec.is_period c)
  | _ :: s' => last_ok s'
  end.

(** A name written in ASCII. *)
Definition is_ascii (s : ustring) : Prop := Forall (fun c => (c < 128)%N) s.

(** What an operation on one destination leaves alone: every other
    file, and every configuration entry but the dataset's key. *)
Definition apart (dest : string) (w w' : world) : Prop :=
  (forall p, p <> dest -> files w' !! p = files w !! p)
  /\ (forall k, k <> config_key -> config w' !! k = config w !! k).

(** Stand-ins for the open helpers of [data_path] in examples: the
    local path is the directory followed by the URL's last component,
    the fetch writes a fixed content, directories are taken to exist. *)
Definition demo_url_to_local_path (url path : string) : result string :=
  if Str.startswith url "http"
  then Ok (op_join path [Str.slice url (Some (rfind url "/" + 1)) None])
  else Raise (ValueError "Invalid URL").

Definition demo_fetch_file (url destination : string) : M unit :=
  log (EvTransfer url) ;;;
  fun w => (Ok tt, set_files (insert destination 7%N) w).

Definition demo_isdir (d : string) : M bool := ret true.
Definition demo_makedirs (d : string) : M unit := ret tt.

Definition demo_legacy_url : string :=
  "http://www.physionet.org/physiobank/database/eegmmidb/S001/S001R01.edf".

(** The demo world after a first call of [data_path]. *)
Definition demo_legacy_cached : world :=
  (data_path demo_url_to_local_path demo_fetch_file demo_isdir demo_makedirs
             demo_legacy_url (Some "/d") false (Some false) demo_world).2.

(** * Properties *)

(** ** The definitions on concrete inputs *)

Example file_part_1_4 : file_part 1 4 = "S001/S001R04.edf".
Proof. reflexivity. Qed.
Example file_part_109_14 : file_part 109 14 = "S109/S109R14.edf".
Proof. reflexivity. Qed.
Example format_neg : Str.format_0d 3 (-5) = "-05".
Proof. reflexivity. Qed.
Example format_wide : Str.format_0d 2 1234 = "1234".
Proof. reflexivity. Qed.
Example join1 : op_join "/d" ["MNE-eegbci-data"; "files"] = "/d/MNE-eegbci-data/files".
Proof. reflexivity. Qed.
Example join2 : op_join "/d/" ["a"; "/b"; "c"] = "/b/c".
Proof. reflexivity. Qed.
Example strip1 : Str.strip "..Fp1.." "." = "Fp1".
Proof. reflexivity. Qed.
Example strip2 : Str.strip ".a.b." "." = "a.b".
Proof. reflexivity. Qed.
Example slice1 : Str.slice "abc" None (Some (-1)) = "ab".
Proof. reflexivity. Qed.
Example slice2 : Str.slice "a" (Some 2) None = "".
Proof. reflexivity. Qed.
Example ends1 : Str.endswith "CZ" "Z" = true.
Proof. reflexivity. Qed.
Example match_default :
  match_base_url EEGMI_URL = Some [Some "files"; Some "eegmmidb"; Some "1.0.0"].
Proof. reflexivity. Qed.
Example match_greedy :
  match_base_url "http://h/files/eegmmidb/1.2.3/files/eegmmidb/10.20.30x"
  = Some [Some "files"; Some "eegmmidb"; Some "10.20.30"].
Proof. reflexivity. Qed.
Example match_old_url :
  match_base_url "http://www.physionet.org/physiobank/database/eegmmidb/" = None.
Proof. reflexivity. Qed.
Example match_lf :
  match_base_url ("http://h/" +:+ String Re.LF "files/eegmmidb/1.0.0/") = None.
Proof. reflexivity. Qed.
Example code_points : ustr ".ZzFPp" = [46; 90; 122; 70; 80; 112]%N.
Proof. reflexivity. Qed.
Example ustrip1 : UStr.strip (ustr "..Fp1..") (ustr ".") = ustr "Fp1".
Proof. reflexivity. Qed.
Example ustrip2 : UStr.strip (ustr ".a.b.") (ustr ".") = ustr "a.b".
Proof. reflexivity. Qed.
Example uslice1 : UStr.slice (ustr "abc") None (Some (-1)) = ustr "ab".
Proof. reflexivity. Qed.
Example uslice2 : UStr.slice (ustr "a") (Some 2) None = [].
Proof. reflexivity. Qed.
Example uslice3 : UStr.slice [] None (Some (-1)) = [].
Proof. reflexivity. Qed.
Example std_fp1 (h : N -> ustring) : std_name h (ustr "Fp1.") = ustr "Fp1".
Proof. reflexivity. Qed.
Example std_cz (h : N -> ustring) : std_name h (ustr "cz") = ustr "Cz".
Proof. reflexivity. Qed.
Example std_t7 (h : N -> ustring) : std_name h (ustr "t7") = ustr "T7".
Proof. reflexivity. Qed.
Example std_fpz (h : N -> ustring) : std_name h (ustr "Fpz.") = ustr "Fpz".
Proof. reflexivity. Qed.
Example std_z (h : N -> ustring) : std_name h (ustr "z") = ustr "z".
Proof. reflexivity. Qed.
Example std_e_acute (h : N -> ustring) :
  h 233%N = [201%N] -> std_name h [233; 49]%N = [201; 49]%N.
Proof. intros H. cbv. rewrite H. reflexivity. Qed.
Example std_sharp_s (h : N -> ustring) :
  h 223%N = [83; 83]%N -> std_name h [223%N] = [83; 83]%N.
Proof. intros H. cbv. rewrite H. reflexivity. Qed.

(** ** Strings *)

Section StringFacts.

Lemma sapp_nil_l (a : string) : "" +:+ a = a.
Proof. reflexivity. Qed.

Lemma sapp_cons (x : ascii) (a b : string) : String x a +:+ b = String x (a +:+ b).
Proof. reflexivity. Qed.

Lemma sapp_nil_r (s : string) : s +:+ "" = s.
Proof. induction s as [|c s IH]; [reflexivity|]. now rewrite sapp_cons, IH. Qed.

Lemma sapp_assoc (a b c : string) : (a +:+ b) +:+ c = a +:+ b +:+ c.
Proof. induction a as [|x a IH]; [reflexivity|]. now rewrite !sapp_cons, IH. Qed.

Lemma slength_app (a b : string) :
  String.length (a +:+ b) = (String.length a + String.length b)%nat.
Proof. induction a as [|x a IH]; [reflexivity|]. rewrite sapp_cons. cbn. now rewrite IH. Qed.

Lemma substring_0_all (s : string) : String.substring 0 (String.length s) s = s.
Proof. induction s as [|c s IH]; [reflexivity|]. cbn. now rewrite IH. Qed.

Lemma substring_0_app (a b : string) :
  String.substring 0 (String.length a) (a +:+ b) = a.
Proof.
  induction a as [|x a IH].
  - now destruct b.
  - rewrite sapp_cons. cbn. now rewrite IH.
Qed.

Lemma substring_skip (a b : string) (n : nat) :
  String.substring (String.length a) n (a +:+ b) = String.substring 0 n b.
Proof. induction a as [|x a IH]; [reflexivity|]. rewrite sapp_cons. cbn. apply IH. Qed.

Lemma all_app (f : ascii -> bool) (a b : string) :
  Spec.all f (a +:+ b) = Spec.all f a && Spec.all f b.
Proof.
  induction a as [|x a IH]; [reflexivity|]. rewrite sapp_cons. cbn.
  now rewrite IH, andb_assoc.
Qed.

End StringFacts.

(** ** File names *)

Lemma format_0d_3 (n : Z) :
  0 <= n < 1000 -> Str.format_0d 3 n = Spec.padded3 n.
Proof.
  intros Hn.
  assert (Hall : forallb
            (fun k => String.eqb (Str.format_0d 3 (Z.of_nat k)) (Spec.padded3 (Z.of_nat k)))
            (seq 0 1000) = true) by (vm_compute; reflexivity).
  rewrite forallb_forall in Hall.
  specialize (Hall (Z.to_nat n)).
  rewrite Z2Nat.id in Hall by lia.
  apply String.eqb_eq, Hall, in_seq. lia.
Qed.

Lemma format_0d_2 (n : Z) :
  0 <= n < 100 -> Str.format_0d 2 n = Spec.padded2 n.
Proof.
  intros Hn.
  assert (Hall : forallb
            (fun k => String.eqb (Str.format_0d 2 (Z.of_nat k)) (Spec.padded2 (Z.of_nat k)))
            (seq 0 100) = true) by (vm_compute; reflexivity).
  rewrite forallb_forall in Hall.
  specialize (Hall (Z.to_nat n)).
  rewrite Z2Nat.id in Hall by lia.
  apply String.eqb_eq, Hall, in_seq. lia.
Qed.

(** C1: for every subject in 1..109 and run in 1..14 the relative path
    computed by [load_data] is [S], the subject as three zero-padded
    digits, [/S], the same three digits, [R], the run as two zero-padded
    digits and [.edf]; subject 1 and run 4 give [S001/S001R04.edf]. *)
Theorem C1_relative_path (subject run : Z) :
  1 <= subject <= 109 -> 1 <= run <= 14 ->
  file_part subject run = Spec.relative_path subject run
  /\ String.length (file_part subject run) = 16%nat
  /\ file_part 1 4 = "S001/S001R04.edf".
Proof.
  intros Hs Hr. unfold file_part, Spec.relative_path.
  rewrite format_0d_3, format_0d_2 by lia.
  repeat split.
Qed.

Lemma C1_relative_path_witness :
  file_part 109 14 = Spec.relative_path 109 14
  /\ String.length (file_part 109 14) = 16%nat
  /\ file_part 1 4 = "S001/S001R04.edf".
Proof. apply (C1_relative_path 109 14); lia. Defined.

(** ** The matcher finds a match exactly when there is one *)

Section MatcherFacts.

Lemma strip_prefix_app (p s : string) : Re.strip_prefix p (p +:+ s) = Some s.
Proof.
  induction p as [|c p IH]; [now destruct s|].
  rewrite sapp_cons. cbn. now rewrite Ascii.eqb_refl.
Qed.

Lemma strip_prefix_inv (p s s' : string) :
  Re.strip_prefix p s = Some s' -> s = p +:+ s'.
Proof.
  revert s. induction p as [|c p IH]; intros s H.
  - destruct s; cbn in H; now inversion H.
  - destruct s as [|b s]; cbn in H; [discriminate|].
    destruct (Ascii.eqb c b) eqn:E; [|discriminate].
    apply Ascii.eqb_eq in E. subst b.
    rewrite sapp_cons. f_equal. now apply IH.
Qed.

Lemma consumed_app (a b : string) : Re.consumed (a +:+ b) b = a.
Proof.
  unfold Re.consumed. rewrite slength_app.
  replace (String.length a + String.length b - String.length b)%nat
    with (String.length a) by lia.
  apply substring_0_app.
Qed.

Context {R : Type}.

Lemma star_sound (a : Re.atom) (s : string) (k : string -> option R) (r : R) :
  Re.star a s k = Some r ->
  exists s1 s2, s = s1 +:+ s2 /\ Spec.all (Re.amatch a) s1 = true /\ k s2 = Some r.
Proof.
  induction s as [|c s IH]; cbn; intros H.
  - exists "", "". auto.
  - destruct (Re.amatch a c) eqn:Ec.
    + destruct (Re.star a s k) as [r'|] eqn:Es.
      * inversion H; subst r'.
        destruct (IH eq_refl) as (s1 & s2 & -> & Hall & Hk).
        exists (String c s1), s2. rewrite sapp_cons. cbn. rewrite Ec. auto.
      * exists "", (String c s). auto.
    + exists "", (String c s). auto.
Qed.

Lemma star_complete (a : Re.atom) (s1 s2 : string) (k : string -> option R) :
  Spec.all (Re.amatch a) s1 = true -> is_Some (k s2) ->
  is_Some (Re.star a (s1 +:+ s2) k).
Proof.
  induction s1 as [|c s1 IH]; intros Hall Hk.
  - rewrite sapp_nil_l. destruct s2 as [|c s2]; cbn; [exact Hk|].
    destruct (Re.amatch a c); [|exact Hk].
    destruct (Re.star a s2 k); [eauto|exact Hk].
  - rewrite sapp_cons. cbn in *. apply andb_true_iff in Hall as [-> Hall].
    destruct (IH Hall Hk) as [r ->]. eauto.
Qed.

Lemma rmatch_sound (r : Re.regex) :
  forall (s : string) (g : list (option string))
         (k : string -> list (option string) -> option R) (out : R),
    Re.rmatch r s g k = Some out ->
    exists s1 s2 g1, s = s1 +:+ s2 /\ matches r s1 g g1 /\ k s2 g1 = Some out.
Proof.
  induction r as [a|l|r1 IH1 r2 IH2|r IH|a|a|i r IH]; intros s g k out H; cbn in H.
  - destruct s as [|c s]; [discriminate|].
    destruct (Re.amatch a c) eqn:Ec; [|discriminate].
    exists (String c ""), s, g. repeat split; auto. now constructor.
  - destruct (Re.strip_prefix l s) as [s'|] eqn:E; [|discriminate].
    apply strip_prefix_inv in E. exists l, s', g. repeat split; auto. constructor.
  - apply IH1 in H as (s1 & s' & g1 & -> & M1 & H).
    apply IH2 in H as (s2 & s3 & g2 & -> & M2 & H).
    exists (s1 +:+ s2), s3, g2. rewrite sapp_assoc. repeat split; auto.
    econstructor; eauto.
  - destruct (Re.rmatch r s g k) as [x|] eqn:E.
    + inversion H; subst x.
      apply IH in E as (s1 & s2 & g1 & -> & M1 & Hk).
      exists s1, s2, g1. repeat split; auto. now apply m_opt_take.
    + exists "", s, g. repeat split; auto. constructor.
  - apply star_sound in H as (s1 & s2 & -> & Hall & Hk).
    exists s1, s2, g. repeat split; auto. now constructor.
  - destruct s as [|c s]; [discriminate|].
    destruct (Re.amatch a c) eqn:Ec; [|discriminate].
    apply star_sound in H as (s1 & s2 & -> & Hall & Hk).
    exists (String c s1), s2, g. rewrite sapp_cons. repeat split; auto.
    constructor; [discriminate|]. cbn. now rewrite Ec.
  - apply IH in H as (s1 & s2 & g1 & -> & M1 & Hk).
    rewrite consumed_app in Hk.
    exists s1, s2, (<[i := Some s1]> g1). repeat split; auto. now constructor.
Qed.

Lemma rmatch_complete (r : Re.regex) (s1 : string) (g g1 : list (option string)) :
  matches r s1 g g1 ->
  forall (s2 : string) (k : string -> list (option string) -> option R),
    is_Some (k s2 g1) -> is_Some (Re.rmatch r (s1 +:+ s2) g k).
Proof.
  induction 1 as [a c g Hc|l g|r1 r2 s1 s2 g g1 g2 _ IH1 _ IH2|r g
                  |r s g g1 _ IH|a s g Hall|a s g Hne Hall|i r s g g1 _ IH];
    intros t k Hk; cbn.
  - rewrite sapp_cons, Hc. exact Hk.
  - rewrite strip_prefix_app. exact Hk.
  - rewrite sapp_assoc. apply IH1, IH2, Hk.
  - rewrite sapp_nil_l. destruct (Re.rmatch r t g k); [eauto|exact Hk].
  - destruct (IH t k Hk) as [x ->]. eauto.
  - apply star_complete; auto.
  - destruct s as [|c s]; [congruence|]. rewrite sapp_cons.
    cbn in Hall. apply andb_true_iff in Hall as [-> Hall].
    apply star_complete; auto.
  - apply IH. now rewrite consumed_app.
Qed.

End MatcherFacts.

Lemma re_match_sound (r : Re.regex) (n : nat) (s : string) (g : list (option string)) :
  Re.re_match r n s = Some g ->
  exists s1 s2, s = s1 +:+ s2 /\ matches r s1 (replicate n None) g.
Proof.
  intros H. apply rmatch_sound in H as (s1 & s2 & g1 & -> & M1 & Hk).
  inversion Hk; subst. eauto.
Qed.

Lemma re_match_complete (r : Re.regex) (n : nat) (s1 s2 : string) (g : list (option string)) :
  matches r s1 (replicate n None) g -> is_Some (Re.re_match r n (s1 +:+ s2)).
Proof. intros H. eapply rmatch_complete; eauto. Qed.

(** ** The base URL pattern *)

Ltac invert_match :=
  match goal with
  | H : matches (Re.Seq _ _) _ _ _ |- _ => inversion H; clear H; subst
  | H : matches (Re.Group _ _) _ _ _ |- _ => inversion H; clear H; subst
  | H : matches (Re.Lit _) _ _ _ |- _ => inversion H; clear H; subst
  | H : matches (Re.Atom _) _ _ _ |- _ => inversion H; clear H; subst
  | H : matches (Re.Opt _) _ _ _ |- _ => inversion H; clear H; subst
  | H : matches (Re.Star _) _ _ _ |- _ => inversion H; clear H; subst
  | H : matches (Re.Plus _) _ _ _ |- _ => inversion H; clear H; subst
  end.

Ltac flatten_app :=
  repeat progress (rewrite ?sapp_assoc, ?sapp_cons, ?sapp_nil_l, ?sapp_nil_r).

Lemma chr_match (x c : ascii) : Re.amatch (Re.Chr x) c = true -> c = x.
Proof. cbn. intros H. now apply Ascii.eqb_eq in H. Qed.

(** A match of the pattern is a scheme, a one-line middle, the two
    segments, a version and possibly a slash; the groups are the two
    segments and the version. *)
Lemma matches_pattern_inv (s : string) (g : list (option string)) :
  matches pattern s [None; None; None] g ->
  exists scheme mid v slash,
    s = scheme +:+ mid +:+ "files/eegmmidb/" +:+ v +:+ slash
    /\ (scheme = "http://" \/ scheme = "https://")
    /\ Spec.all (Re.amatch Re.Any) mid = true
    /\ Spec.version v
    /\ g = [Some "files"; Some "eegmmidb"; Some v].
Proof.
  intros H. unfold pattern in H. repeat invert_match;
    repeat match goal with
           | H : Re.amatch (Re.Chr _) _ = true |- _ => apply chr_match in H; subst
           end.
  all: match goal with
       | |- context [(?a +:+ String "." "" +:+ ?b +:+ String "." "" +:+ ?c) +:+ ?sl] =>
           match goal with
           | |- context ["http" +:+ ?o +:+ "://" +:+ ?mid] =>
               exists ("http" +:+ o +:+ "://"), mid, (a +:+ "." +:+ b +:+ "." +:+ c), sl;
               assert (Hv : Spec.version (a +:+ "." +:+ b +:+ "." +:+ c))
                 by (exists a, b, c; repeat split; assumption)
           end
       end.
  all: split; [flatten_app; reflexivity|].
  all: split; [cbn; auto|].
  all: split; [assumption|].
  all: split; [assumption|reflexivity].
Qed.

Lemma matches_pattern_intro (o mid d1 d2 d3 : string) :
  o = "" \/ o = "s" ->
  Spec.all (Re.amatch Re.Any) mid = true ->
  Spec.number d1 -> Spec.number d2 -> Spec.number d3 ->
  matches pattern
    (("http" +:+ o +:+ "://" +:+ mid) +:+ "files" +:+ "/" +:+ "eegmmidb" +:+ "/"
       +:+ (d1 +:+ "." +:+ d2 +:+ "." +:+ d3) +:+ "")
    [None; None; None]
    [Some "files"; Some "eegmmidb"; Some (d1 +:+ "." +:+ d2 +:+ "." +:+ d3)].
Proof.
  intros Ho Hmid [N1 A1] [N2 A2] [N3 A3]. unfold pattern.
  change [Some "files"; Some "eegmmidb"; Some (d1 +:+ "." +:+ d2 +:+ "." +:+ d3)]
    with (<[2%nat := Some (d1 +:+ "." +:+ d2 +:+ "." +:+ d3)]>
            (<[1%nat := Some "eegmmidb"]> (<[0%nat := Some "files"]> [None; None; None]))).
  eapply m_seq.
  - eapply m_seq; [apply m_lit|]. eapply m_seq.
    + destruct Ho as [-> | ->]; [apply m_opt_skip|].
      apply m_opt_take, m_atom. reflexivity.
    + eapply m_seq; [apply m_lit|]. now apply m_star.
  - eapply m_seq; [apply (m_group 0), m_lit|].
    eapply m_seq; [now apply m_atom|].
    eapply m_seq; [apply (m_group 1), m_lit|].
    eapply m_seq; [now apply m_atom|].
    eapply m_seq; [|apply m_opt_skip].
    apply (m_group 2).
    eapply m_seq; [now apply m_plus|].
    eapply m_seq; [now apply m_atom|].
    eapply m_seq; [now apply m_plus|].
    eapply m_seq; [now apply m_atom|].
    now apply m_plus.
Qed.

(** What the groups of a match are. *)
Lemma match_base_url_groups (base_url : string) (g : list (option string)) :
  match_base_url base_url = Some g ->
  exists v pre post,
    g = [Some "files"; Some "eegmmidb"; Some v]
    /\ Spec.version v
    /\ base_url = pre +:+ "files/eegmmidb/" +:+ v +:+ post.
Proof.
  intros Hg. apply re_match_sound in Hg as (s1 & s2 & -> & Hm).
  apply matches_pattern_inv in Hm as (scheme & mid & v & slash & -> & Hs & Hmid & Hv & ->).
  exists v, (scheme +:+ mid), (slash +:+ s2). flatten_app. auto.
Qed.

(** ** Suffixes of strings *)

Section NameFacts.

Lemma substring_split (n : nat) (s : string) :
  (n <= String.length s)%nat ->
  String.substring 0 n s +:+ String.substring n (String.length s - n) s = s.
Proof.
  revert n. induction s as [|c s IH]; intros [|n] Hn; cbn in *; try lia.
  - reflexivity.
  - rewrite sapp_nil_l. now rewrite substring_0_all.
  - rewrite sapp_cons. f_equal. apply IH. lia.
Qed.

Lemma endswith_app (a p : string) : Str.endswith (a +:+ p) p = true.
Proof.
  unfold Str.endswith, Str.sub, Str.len. rewrite slength_app.
  apply andb_true_iff. split; [apply Z.leb_le; lia|].
  apply String.eqb_eq.
  replace (Z.to_nat (Z.of_nat (String.length a + String.length p) - Z.of_nat (String.length p)))
    with (String.length a) by lia.
  replace (Z.to_nat (Z.of_nat (String.length a + String.length p)
                     - (Z.of_nat (String.length a + String.length p)
                        - Z.of_nat (String.length p))))
    with (String.length p) by lia.
  rewrite substring_skip. apply substring_0_all.
Qed.

Lemma endswith_inv (s p : string) :
  Str.endswith s p = true -> exists a, s = a +:+ p.
Proof.
  unfold Str.endswith, Str.sub, Str.len. intros H.
  apply andb_true_iff in H as [Hle Heq].
  apply Z.leb_le in Hle. apply String.eqb_eq in Heq.
  exists (String.substring 0 (String.length s - String.length p) s).
  rewrite <- Heq at 2.
  replace (Z.to_nat (Z.of_nat (String.length s) - Z.of_nat (String.length p)))
    with (String.length s - String.length p)%nat by lia.
  replace (Z.to_nat (Z.of_nat (String.length s)
                     - (Z.of_nat (String.length s) - Z.of_nat (String.length p))))
    with (String.length s - (String.length s - String.length p))%nat by lia.
  symmetry. apply substring_split. lia.
Qed.

End NameFacts.

(** ** Channel names *)

Section ChannelNames.

Lemma uendswith_app (a p : ustring) : UStr.endswith (a ++ p) p = true.
Proof.
  unfold UStr.endswith. rewrite length_app.
  apply andb_true_iff. split; [apply Nat.leb_le; lia|].
  apply bool_decide_eq_true.
  replace (length a + length p - length p)%nat with (length a) by lia.
  apply drop_app_length.
Qed.

Lemma uendswith_inv (s p : ustring) :
  UStr.endswith s p = true -> exists a, s = a ++ p.
Proof.
  unfold UStr.endswith. intros H.
  apply andb_true_iff in H as [_ Heq]. apply bool_decide_eq_true in Heq.
  exists (take (length s - length p) s).
  rewrite <- Heq at 2. symmetry. apply take_drop.
Qed.

(** [s[:-1]] drops the last character. *)
Lemma uslice_init (a : ustring) (c : N) :
  UStr.slice (a ++ [c]) None (Some (-1)) = a.
Proof.
  unfold UStr.slice, Str.bound, UStr.len. rewrite length_app. cbn [length].
  change (-1 <? 0) with true. cbv iota.
  replace (Z.to_nat (Z.max 0 (Z.min (Z.of_nat (length a + 1))
                                    (-1 + Z.of_nat (length a + 1))) - 0))
    with (length a) by lia.
  change (Z.to_nat 0) with 0%nat. rewrite drop_0. apply take_app_length.
Qed.

(** [s[2:]] drops the first two characters. *)
Lemma uslice_tail2 (x y : N) (r : ustring) :
  UStr.slice (x :: y :: r) (Some 2) None = r.
Proof.
  unfold UStr.slice, Str.bound, UStr.len. cbn [length].
  change (2 <? 0) with false. cbv iota.
  replace (Z.to_nat (Z.max 0 (Z.min (Z.of_nat (S (S (length r)))) 2)))
    with 2%nat by lia.
  replace (Z.to_nat (Z.of_nat (S (S (length r)))
                     - Z.max 0 (Z.min (Z.of_nat (S (S (length r)))) 2)))
    with (length r) by lia.
  cbn [drop]. apply firstn_all.
Qed.

Lemma final_Z_app (a : ustring) : Spec.final_Z (a ++ [90%N]) = a ++ [122%N].
Proof.
  induction a as [|c a IH]; [reflexivity|].
  cbn [app]. destruct (a ++ [90%N]) as [|d l] eqn:E.
  - destruct a; discriminate.
  - change (Spec.final_Z (c :: d :: l)) with (c :: Spec.final_Z (d :: l)).
    now rewrite IH.
Qed.

Lemma final_Z_id (s : ustring) :
  UStr.endswith s [90%N] = false -> Spec.final_Z s = s.
Proof.
  induction s as [|c s IH]; [reflexivity|]. intros H.
  destruct s as [|d s].
  - cbn. destruct (N.eqb_spec c 90) as [->|]; [discriminate|reflexivity].
  - change (Spec.final_Z (c :: d :: s)) with (c :: Spec.final_Z (d :: s)).
    rewrite IH; [reflexivity|].
    destruct (UStr.endswith (d :: s) [90%N]) eqn:E; [|reflexivity].
    apply uendswith_inv in E as [a Ha]. rewrite Ha in H.
    rewrite app_comm_cons, uendswith_app in H. discriminate.
Qed.

(** The test on a final [Z] and the slice agree with [final_Z]. *)
Lemma final_Z_slice (s : ustring) :
  (if UStr.endswith s (ustr "Z")
   then UStr.slice s None (Some (-1)) ++ ustr "z" else s)
  = Spec.final_Z s.
Proof.
  change (ustr "Z") with [90%N]. change (ustr "z") with [122%N].
  destruct (UStr.endswith s [90%N]) eqn:E.
  - apply uendswith_inv in E as [a ->]. now rewrite uslice_init, final_Z_app.
  - symmetry. now apply final_Z_id.
Qed.

(** The test on a leading [FP] and the slice agree with [leading_FP]. *)
Lemma leading_FP_slice (s : ustring) :
  (if UStr.startswith s (ustr "FP")
   then ustr "Fp" ++ UStr.slice s (Some 2) None else s)
  = Spec.leading_FP s.
Proof.
  change (ustr "FP") with [70%N; 80%N]. change (ustr "Fp") with [70%N; 112%N].
  unfold UStr.startswith, Spec.leading_FP.
  destruct s as [|x [|y r]]; cbn [length take].
  - now rewrite bool_decide_eq_false_2 by discriminate.
  - now rewrite bool_decide_eq_false_2 by discriminate.
  -
    destruct (N.eqb_spec x 70) as [->|Hx]; [destruct (N.eqb_spec y 80) as [->|Hy]|].
    + rewrite bool_decide_eq_true_2 by reflexivity. now rewrite uslice_tail2.
    + rewrite bool_decide_eq_false_2 by congruence. reflexivity.
    + rewrite bool_decide_eq_false_2 by congruence. reflexivity.
Qed.

Lemma mem_period (c : N) : UStr.mem c (ustr ".") = Spec.is_period c.
Proof.
  change (ustr ".") with [46%N]. unfold UStr.mem, Spec.is_period.
  destruct (N.eqb_spec c 46) as [->|Hc].
  - apply bool_decide_eq_true_2. now left.
  - apply bool_decide_eq_false_2. intros Hin.
    apply elem_of_cons in Hin as [?|Hin]; [congruence|inversion Hin].
Qed.

Lemma lstrip_periods (s : ustring) :
  UStr.lstrip s (ustr ".") = Spec.drop_periods s.
Proof.
  induction s as [|c s IH]; [reflexivity|].
  cbn [UStr.lstrip Spec.drop_periods].
  rewrite mem_period, IH. reflexivity.
Qed.

Lemma drop_periods_snoc (l : ustring) (c : N) :
  Spec.drop_periods (l ++ [c])
  = match Spec.drop_periods l with
    | [] => if Spec.is_period c then [] else [c]
    | r => r ++ [c]
    end.
Proof.
  induction l as [|x l IH]; [reflexivity|]. cbn.
  destruct (Spec.is_period x); [exact IH|reflexivity].
Qed.

Lemma rstrip_periods (s : ustring) :
  UStr.rstrip s (ustr ".") = rev (Spec.drop_periods (rev s)).
Proof.
  induction s as [|c s IH]; [reflexivity|].
  cbn [UStr.rstrip rev].
  rewrite drop_periods_snoc, mem_period, IH.
  destruct (Spec.drop_periods (rev s)) as [|x r].
  - cbn [rev]. now destruct (Spec.is_period c).
  - rewrite (rev_app_distr (x :: r) [c]). cbn [rev app].
    destruct (rev r ++ [x]) eqn:E; [|reflexivity].
    destruct (rev r); discriminate.
Qed.

(** [strip('.')] removes the periods at the front, then at the back. *)
Lemma strip_periods (s : ustring) :
  UStr.strip s (ustr ".") = Spec.strip_periods s.
Proof.
  unfold UStr.strip, Spec.strip_periods.
  now rewrite lstrip_periods, rstrip_periods.
Qed.

Variable upper_high : N -> ustring.

(** The body of the loop computes the documented standard name,
    whatever the upper-case mapping is from 128 on. *)
Lemma std_name_standard (s : ustring) :
  std_name upper_high s = Spec.standard_name upper_high s.
Proof.
  unfold std_name, Spec.standard_name.
  now rewrite leading_FP_slice, final_Z_slice, strip_periods.
Qed.

Lemma rename_loop_lookup (ch_names : list ustring)
      (rename : gmap ustring ustring) (n : ustring) :
  rename_loop upper_high ch_names rename !! n
  = if bool_decide (n ∈ ch_names) then Some (std_name upper_high n)
    else rename !! n.
Proof.
  revert rename. induction ch_names as [|x l IH]; intros rename.
  - reflexivity.
  - cbn [rename_loop]. rewrite IH.
    destruct (bool_decide (n ∈ l)) eqn:El.
    + apply bool_decide_eq_true in El.
      rewrite bool_decide_eq_true_2; [reflexivity|]. now right.
    + apply bool_decide_eq_false in El.
      destruct (decide (n = x)) as [->|Hne].
      * rewrite lookup_insert_eq, bool_decide_eq_true_2; [reflexivity|]. now left.
      * rewrite lookup_insert_ne by congruence.
        rewrite bool_decide_eq_false_2; [reflexivity|].
        intros Hin. apply elem_of_cons in Hin as [?|?]; congruence.
Qed.

End ChannelNames.

(** C3: [standardize] is a function of the channel names; its mapping
    has an entry for exactly the names given, changed or not, and the
    entry of a name is the name with the periods at both ends removed,
    then upper-cased, then with a final [Z] turned into [z], then with a
    leading [FP] turned into [Fp].  So [Fp1.] gives [Fp1], [cz] gives
    [Cz] and [t7] gives [T7].  This holds for every name, a sequence of
    Unicode code points, and for every upper-case mapping of the
    code points from 128 on. *)
Theorem C3_standardize (upper_high : N -> ustring) (ch_names : list ustring)
        (n : ustring) :
  standardize upper_high ch_names !! n
  = (if bool_decide (n ∈ ch_names)
     then Some (Spec.standard_name upper_high n) else None)
  /\ dom (standardize upper_high ch_names) = list_to_set ch_names
  /\ standardize upper_high [ustr "Fp1."; ustr "cz"; ustr "t7"]
     = {[ ustr "Fp1." := ustr "Fp1"; ustr "cz" := ustr "Cz";
          ustr "t7" := ustr "T7" ]}.
Proof.
  assert (Hl : forall m, standardize upper_high ch_names !! m
               = if bool_decide (m ∈ ch_names)
                 then Some (Spec.standard_name upper_high m) else None).
  { intros m. unfold standardize.
    now rewrite rename_loop_lookup, lookup_empty, std_name_standard. }
  split; [apply Hl|]. split.
  - apply set_eq. intros m. rewrite elem_of_dom, Hl, elem_of_list_to_set.
    destruct (bool_decide (m ∈ ch_names)) eqn:E.
    + apply bool_decide_eq_true in E. split; eauto.
    + apply bool_decide_eq_false in E. split; [intros [? ?]; discriminate|tauto].
  - vm_compute. reflexivity.
Qed.

(** ** Joining path components *)

Section JoinFacts.

Lemma app_last_inj (a b : string) (c d : ascii) :
  a +:+ String c "" = b +:+ String d "" -> c = d.
Proof.
  revert b. induction a as [|x a IH]; intros [|y b] H;
    rewrite ?sapp_cons, ?sapp_nil_l in H.
  - now inversion H.
  - inversion H as [[Hx Hb]]. destruct b; discriminate.
  - inversion H as [[Hx Ha]]. destruct a; discriminate.
  - inversion H. eauto.
Qed.

Lemma with_sep_last (x : string) (c : ascii) :
  c <> "/"%char -> with_sep (x +:+ String c "") = x +:+ String c "" +:+ "/".
Proof.
  intros Hc. unfold with_sep.
  assert (String.eqb (x +:+ String c "") "" = false) as -> by now destruct x.
  destruct (Str.endswith (x +:+ String c "") "/") eqn:E.
  - apply endswith_inv in E as [a Ha]. apply app_last_inj in Ha. congruence.
  - now rewrite sapp_assoc.
Qed.

Lemma op_join_step (a b : string) (l : list string) :
  op_join a (b :: l)
  = op_join (if Str.startswith b "/" then b
             else if String.eqb a "" || Str.endswith a "/" then a +:+ b
                  else a +:+ "/" +:+ b) l.
Proof. reflexivity. Qed.

Lemma op_join_cons (a b : string) (l : list string) :
  Str.startswith b "/" = false -> op_join a (b :: l) = op_join (with_sep a +:+ b) l.
Proof.
  intros Hb. unfold with_sep. rewrite op_join_step, Hb.
  destruct (String.eqb a "" || Str.endswith a "/"); [reflexivity|].
  now rewrite sapp_assoc.
Qed.

Lemma version_relative (v : string) :
  Spec.version v -> Str.startswith v "/" = false.
Proof.
  intros (d1 & d2 & d3 & -> & [N1 A1] & _).
  destruct d1 as [|c d1]; [congruence|].
  rewrite sapp_cons. unfold Str.startswith. cbn [String.prefix].
  destruct (ascii_dec "/" c) as [<-|]; [discriminate|reflexivity].
Qed.

(** The four components under the cache root, as one string. *)
Lemma op_join_cache (path v : string) :
  Spec.version v ->
  op_join path ["MNE-eegbci-data"; "files"; "eegmmidb"; v]
  = with_sep path +:+ "MNE-eegbci-data/files/eegmmidb/" +:+ v.
Proof.
  intros Hv.
  rewrite op_join_cons by reflexivity.
  replace (with_sep path +:+ "MNE-eegbci-data")
    with ((with_sep path +:+ "MNE-eegbci-dat") +:+ "a") by (now rewrite sapp_assoc).
  rewrite op_join_cons, with_sep_last by (reflexivity || discriminate).
  replace (((with_sep path +:+ "MNE-eegbci-dat") +:+ "a" +:+ "/") +:+ "files")
    with ((with_sep path +:+ "MNE-eegbci-data/file") +:+ "s")
    by (now rewrite !sapp_assoc).
  rewrite op_join_cons, with_sep_last by (reflexivity || discriminate).
  replace (((with_sep path +:+ "MNE-eegbci-data/file") +:+ "s" +:+ "/") +:+ "eegmmidb")
    with ((with_sep path +:+ "MNE-eegbci-data/files/eegmmid") +:+ "b")
    by (now rewrite !sapp_assoc).
  rewrite op_join_cons, with_sep_last by (auto using version_relative || discriminate).
  change (op_join ?a []) with a. now rewrite !sapp_assoc.
Qed.

End JoinFacts.

(** C10: the validator accepts exactly the strings made of
    [http://] or [https://], any characters other than a line feed, the
    segments [files/eegmmidb/], a version [digits.digits.digits], and
    anything at all after the version: the match is anchored at the start
    only and the dataset name is fixed. *)
Theorem C10_validator (base_url : string) :
  is_Some (match_base_url base_url) <-> Spec.one_line_middle base_url.
Proof.
  split.
  - intros [g Hg]. apply re_match_sound in Hg as (s1 & s2 & -> & Hm).
    apply matches_pattern_inv in Hm as (scheme & mid & v & slash & -> & Hs & Hmid & Hv & _).
    exists scheme, mid, v, (slash +:+ s2). flatten_app. auto.
  - intros (scheme & mid & v & rest & -> & Hs & Hmid & d1 & d2 & d3 & -> & H1 & H2 & H3).
    assert (Ho : exists o, (o = "" \/ o = "s") /\ scheme = "http" +:+ o +:+ "://").
    { destruct Hs as [-> | ->]; [exists ""|exists "s"]; auto. }
    destruct Ho as (o & Ho & ->).
    pose proof (matches_pattern_intro o mid d1 d2 d3 Ho Hmid H1 H2 H3) as Hm.
    apply (re_match_complete _ 3 _ rest) in Hm.
    unfold match_base_url.
    match goal with
    | H : is_Some (Re.re_match _ _ ?a) |- is_Some (Re.re_match _ _ ?b) =>
        replace b with a; [exact H|]
    end.
    flatten_app. reflexivity.
Qed.

(** C10 with any characters allowed in the middle does not hold: with a
    line feed between the scheme and the segments the URL has that shape
    and is rejected. *)
Lemma C10_line_feed_rejected :
  ~ (is_Some (match_base_url lf_url) <-> Spec.any_middle lf_url).
Proof.
  intros [_ H].
  assert (Hshape : Spec.any_middle lf_url).
  { exists "http://", ("host/" +:+ String Re.LF ""), "1.0.0", "/".
    repeat split; auto.
    exists "1", "0", "0". repeat split; discriminate. }
  apply H in Hshape. vm_compute in Hshape. destruct Hshape as [g Hg]. discriminate.
Qed.

(** ** The cache directory *)

Lemma components_groups (a b c : string) :
  components [Some a; Some b; Some c] = Ok [a; b; c].
Proof. reflexivity. Qed.

(** C4: for every base URL that passes validation the cache
    directory is [cache_root / MNE-eegbci-data / files / eegmmidb /
    version], four segments under the cache root, the last being the
    version found in the URL; as one string, the cache root, a separator
    unless the root is empty or ends with one, and
    [MNE-eegbci-data/files/eegmmidb/] followed by the version. *)
Theorem C4_cache_directory (path base_url : string) :
  is_Some (match_base_url base_url) ->
  exists version pre post,
    Spec.version version
    /\ base_url = pre +:+ "files/eegmmidb/" +:+ version +:+ post
    /\ base_path path base_url
       = Ok (op_join path ["MNE-eegbci-data"; "files"; "eegmmidb"; version])
    /\ op_join path ["MNE-eegbci-data"; "files"; "eegmmidb"; version]
       = with_sep path +:+ "MNE-eegbci-data/files/eegmmidb/" +:+ version.
Proof.
  intros [g Hg].
  destruct (match_base_url_groups _ _ Hg) as (v & pre & post & -> & Hv & Hurl).
  exists v, pre, post. split; [exact Hv|]. split; [exact Hurl|].
  split; [|now apply op_join_cache].
  unfold base_path. rewrite Hg, components_groups. reflexivity.
Qed.

Lemma C4_cache_directory_witness :
  exists version pre post,
    Spec.version version
    /\ EEGMI_URL = pre +:+ "files/eegmmidb/" +:+ version +:+ post
    /\ base_path "/data" EEGMI_URL
       = Ok (op_join "/data" ["MNE-eegbci-data"; "files"; "eegmmidb"; version])
    /\ op_join "/data" ["MNE-eegbci-data"; "files"; "eegmmidb"; version]
       = with_sep "/data" +:+ "MNE-eegbci-data/files/eegmmidb/" +:+ version.
Proof. apply (C4_cache_directory "/data" EEGMI_URL). vm_compute. eauto. Defined.

(** C4 with three segments does not hold: the directory has the segment
    [files] between the fixed folder and the dataset name. *)
Lemma C4_three_segments_fails :
  match_base_url EEGMI_URL = Some [Some "files"; Some "eegmmidb"; Some "1.0.0"]
  /\ base_path "/data" EEGMI_URL = Ok "/data/MNE-eegbci-data/files/eegmmidb/1.0.0"
  /\ base_path "/data" EEGMI_URL <> Ok (Spec.local_dir "/data" "eegmmidb" "1.0.0").
Proof. repeat split. vm_compute. discriminate. Qed.

(** ** Failing fast on a malformed base URL *)

Lemma get_path_run (path : option string) (key nm : string) (w : world) :
  _get_path path key nm w
  = (Ok (resolve_path path key w), record (EvGetPath path key nm) w).
Proof. reflexivity. Qed.

(** C2: for a base URL that does not match the pattern, [load_data]
    raises the [ValueError] whose message names [base_url], after
    resolving the cache root and before the fetcher is created: the only
    call logged is the path resolution, and files and configuration are
    untouched, so no fetch and no transfer is attempted. *)
Theorem C2_malformed_url (subject : Z) (runs : runs_arg) (path : option string)
        (force_update : bool) (update_path : option bool) (base_url : string)
        (w : world) :
  match_base_url base_url = None ->
  exists w',
    load_data subject runs path force_update update_path base_url w
    = (Raise (ValueError url_error), w')
    /\ Str.startswith url_error "base_url does not match" = true
    /\ trace w' = trace w ++ [EvGetPath path config_key name]
    /\ files w' = files w /\ config w' = config w.
Proof.
  intros Hm. exists (record (EvGetPath path config_key name) w).
  split; [|repeat split].
  unfold load_data, prepare, bind at 1 2. rewrite get_path_run.
  unfold bind, lift, base_path. rewrite Hm. reflexivity.
Qed.

Lemma C2_malformed_url_witness :
  exists w',
    load_data 1 (RunList [4; 10; 14]) None true None
              "http://www.physionet.org/physiobank/database/eegmmidb/" demo_world
    = (Raise (ValueError url_error), w')
    /\ Str.startswith url_error "base_url does not match" = true
    /\ trace w' = trace demo_world ++ [EvGetPath None config_key name]
    /\ files w' = files demo_world /\ config w' = config demo_world.
Proof. apply C2_malformed_url. reflexivity. Defined.

(** ** One iteration of the loop *)

Section Effects.

Lemma same_surroundings_refl (w : world) : same_surroundings w w.
Proof. repeat split. Qed.

Lemma same_surroundings_trans (w1 w2 w3 : world) :
  same_surroundings w1 w2 -> same_surroundings w2 w3 -> same_surroundings w1 w3.
Proof.
  unfold same_surroundings. intros (?&?&?&?&?) (?&?&?&?&?).
  repeat split; congruence.
Qed.

Lemma bind_ok {A B} (m : M A) (f : A -> M B) (w w' : world) (b : B) :
  bind m f w = (Ok b, w') ->
  exists a w1, m w = (Ok a, w1) /\ f a w1 = (Ok b, w').
Proof.
  unfold bind. destruct (m w) as [[a|e] w1]; [eauto|discriminate].
Qed.

Lemma bind_run {A B} (m : M A) (f : A -> M B) (w w1 : world) (a : A) :
  m w = (Ok a, w1) -> bind m f w = f a w1.
Proof. unfold bind. now intros ->. Qed.

(** A transfer that ends well made between one attempt and one more
    than the retries, wrote the destination and nothing else. *)
Lemma download_ok (retries : nat) (url dest : string) (w w' : world) :
  download retries url dest w = (Ok tt, w') ->
  exists k c,
    (1 <= k <= S retries)%nat
    /\ files w' = <[dest := c]> (files w)
    /\ config w' = config w
    /\ trace w' = trace w ++ replicate k (EvTransfer url)
    /\ same_surroundings w w'.
Proof.
  revert w. induction retries as [|r IH]; intros w H; cbn in H.
  - destruct (remote w (now w) url) as [c|]; [|discriminate].
    inversion H; subst w'. exists 1%nat, c. repeat split; auto.
  - destruct (remote w (now w) url) as [c|].
    + inversion H; subst w'. exists 1%nat, c. repeat split; auto. lia.
    + apply IH in H as (k & c & Hk & Hf & Hc & Ht & Hs).
      destruct Hs as (?&?&?&?&?).
      exists (S k), c. cbn in *. repeat split; try assumption; try lia.
      rewrite Ht, <- app_assoc. reflexivity.
Qed.

(** What a path update does: it is logged, and it leaves the
    configuration as it is or stores the path; it stores nothing when
    the path is stored already, when [update_path] is [False], or when
    the user declines. *)
Lemma do_path_update_run (p : string) (up : option bool) (w : world) :
  exists w',
    _do_path_update p up config_key name w = (Ok tt, w')
    /\ files w' = files w
    /\ trace w' = trace w ++ [EvPathUpdate p up config_key name]
    /\ same_surroundings w w'
    /\ (config w' = config w \/ config w' = <[config_key := p]> (config w))
    /\ (config w !! config_key = Some p \/ up = Some false
        \/ (up = None /\ answer w (now w) = false) ->
        config w' = config w).
Proof.
  unfold _do_path_update.
  destruct (bool_decide (config w !! config_key = Some p)) eqn:E.
  - eexists. split; [reflexivity|]. repeat split; auto.
  - apply bool_decide_eq_false in E.
    destruct up as [[|]|]; [| |destruct (answer w (now w)) eqn:Ea];
      (eexists; split; [reflexivity|]; repeat split; auto).
    all: intros [H|[H|[H1 H2]]]; congruence.
Qed.

(** A fetch of a file that is present and has the recorded checksum
    transfers nothing and changes nothing. *)
Lemma fetch_valid (f : fetcher) (fname : string) (h : checksum) (w : world) :
  f_registry f !! fname = Some h ->
  files w !! op_join (f_path f) [fname] = Some h ->
  fetch f fname w = (Ok (op_join (f_path f) [fname]), record (EvFetch fname) w).
Proof.
  intros Hr Hf. unfold fetch, bind, log, isfile. rewrite Hr.
  cbn [files record]. rewrite Hf.
  rewrite bool_decide_eq_true_2 by eauto. unfold ret.
  cbn [files]. now rewrite bool_decide_eq_true_2.
Qed.

(** A fetch that ends well returns the destination, which then holds
    the recorded checksum; it transferred nothing if the file was there
    and valid, and made between one and [retries + 1] attempts if the
    file was missing. *)
Lemma fetch_ok (f : fetcher) (fname y : string) (w w' : world) :
  fetch f fname w = (Ok y, w') ->
  let dest := op_join (f_path f) [fname] in
  exists h k,
    y = dest
    /\ f_registry f !! fname = Some h
    /\ files w' = <[dest := h]> (files w)
    /\ config w' = config w
    /\ trace w' = trace w ++ [EvFetch fname]
                    ++ replicate k (EvTransfer (f_base_url f +:+ fname))
    /\ same_surroundings w w'
    /\ ((k = 0%nat /\ files w !! dest = Some h)
        \/ ((1 <= k <= S (f_retry f))%nat /\ files w !! dest = None)).
Proof.
  intros H dest. unfold fetch in H.
  apply bind_ok in H as ([] & w1 & Hlog & H).
  unfold log in Hlog. inversion Hlog; subst w1; clear Hlog.
  destruct (f_registry f !! fname) as [h|] eqn:Hr; [|discriminate].
  apply bind_ok in H as (present & w1 & Hp & H).
  unfold isfile in Hp. inversion Hp; subst; clear Hp.
  apply bind_ok in H as ([] & w2 & Hd & H).
  fold dest in H, Hd. cbn [files record] in Hd.
  destruct (bool_decide (files w2 !! dest = Some h)) eqn:Hv; [|discriminate].
  apply bool_decide_eq_true in Hv. inversion H; subst; clear H.
  exists h.
  destruct (files w !! dest) as [c|] eqn:Hw.
  - rewrite bool_decide_eq_true_2 in Hd by eauto.
    unfold ret in Hd. inversion Hd; subst w'; clear Hd.
    cbn [files record] in Hv. rewrite Hw in Hv. inversion Hv; subst c.
    exists 0%nat. cbn. repeat split; auto.
    symmetry. now apply insert_id.
  - rewrite bool_decide_eq_false_2 in Hd by apply is_Some_None.
    apply download_ok in Hd as (k & c & Hk & Hf & Hc & Ht & Hs).
    destruct Hs as (?&?&?&?&?). cbn in *.
    rewrite Hf, lookup_insert_eq in Hv. inversion Hv; subst c.
    exists k. repeat split; auto.
    rewrite Ht, <- app_assoc. reflexivity.
Qed.

End Effects.

Section Iteration.

Variables (subject : Z) (c : context) (up : option bool).
Hypothesis Hc : coherent c.

(** An iteration that ends well: it returns the destination, which
    then holds the recorded checksum; its calls are the removal (when
    forced and the file was there), the fetch, the transfers and the
    path update. *)
Lemma fetch_run_ok (fu : bool) (run : Z) (y : string) (w w' : world) :
  fetch_run subject c fu up run w = (Ok y, w') ->
  let dest := destination subject c run in
  let removal := fu && bool_decide (is_Some (files w !! dest)) in
  exists h k,
    y = dest
    /\ f_registry (c_fetcher c) !! file_part subject run = Some h
    /\ files w' = <[dest := h]> (files w)
    /\ trace w' = trace w ++ iteration subject c up run removal k
    /\ same_surroundings w w'
    /\ (config w' = config w \/ config w' = <[config_key := c_path c]> (config w))
    /\ (config w !! config_key = Some (c_path c) \/ up = Some false ->
        config w' = config w)
    /\ ((k = 0%nat /\ removal = false /\ files w !! dest = Some h)
        \/ ((1 <= k <= S (f_retry (c_fetcher c)))%nat
            /\ (removal = true \/ files w !! dest = None))).
Proof.
  intros H dest removal. unfold fetch_run in H. fold dest in H.
  apply bind_ok in H as (present & w1 & Hp & H).
  apply bind_ok in H as ([] & w2 & Hrm & H).
  unfold fetch_and_update in H.
  apply bind_ok in H as (y' & w3 & Hf & H).
  apply bind_ok in H as ([] & w4 & Hu & H).
  unfold ret in H. inversion H; subst y' w4; clear H.
  apply fetch_ok in Hf as (h & k & Hy & Hr & Hfiles & Hcfg & Htr & Hs & Hk).
  pose proof Hc as Hpath. unfold coherent in Hpath.
  rewrite Hpath in Hy, Hfiles, Hk.
  fold (destination subject c run) in Hy, Hfiles, Hk.
  fold dest in Hy, Hfiles, Hk. subst y.
  destruct (do_path_update_run (c_path c) up w3) as (w5 & Hu' & Uf & Ut & Us & Uc & Uc').
  rewrite Hu' in Hu. inversion Hu; subst w5; clear Hu Hu'.
  assert (Hstep : exists (b : bool),
             b = removal
             /\ files w2 = (if b then delete dest (files w) else files w)
             /\ config w2 = config w
             /\ trace w2 = trace w ++ (if b then [EvRemove dest] else [])
             /\ same_surroundings w w2).
  { exists present. destruct fu.
    - unfold isfile in Hp. inversion Hp; subst; clear Hp.
      unfold removal. cbn [andb].
      destruct (files w1 !! dest) as [x|] eqn:E.
      + rewrite bool_decide_eq_true_2 in * by eauto.
        unfold os_remove in Hrm. rewrite E in Hrm. inversion Hrm; subst; clear Hrm.
        cbn. repeat split; auto.
      + rewrite bool_decide_eq_false_2 in * by apply is_Some_None.
        unfold ret in Hrm. inversion Hrm; subst.
        rewrite app_nil_r. repeat split; auto.
    - unfold ret in Hp. inversion Hp; subst; clear Hp.
      unfold ret in Hrm. inversion Hrm; subst.
      unfold removal. cbn [andb]. rewrite app_nil_r. repeat split; auto. }
  destruct Hstep as (b & Hb & Sf & Sc & St & Ss). rewrite <- Hb.
  exists h, k. split; [reflexivity|]. split; [exact Hr|].
  split; [|split; [|split; [|split; [|split]]]].
  - rewrite Uf, Hfiles, Sf. destruct b; [apply insert_delete_eq|reflexivity].
  - rewrite Ut, Htr, St. unfold iteration, run_url. fold dest.
    rewrite <- !app_assoc. reflexivity.
  - eauto using same_surroundings_trans.
  - rewrite <- Sc, <- Hcfg. exact Uc.
  - intros Hno. rewrite <- Sc, <- Hcfg. apply Uc'.
    rewrite Hcfg, Sc. tauto.
  - rewrite Sf in Hk. destruct b.
    + right. rewrite lookup_delete_eq in Hk.
      destruct Hk as [[_ Hk]|[Hk _]]; [discriminate|]. auto.
    + destruct Hk as [[-> Hk]|[Hk1 Hk2]]; [left|right]; auto.
Qed.

(** Without [force_update], an iteration on a file that is present
    and valid returns its path, transfers nothing and leaves the files
    as they are. *)
Lemma fetch_run_valid (run : Z) (h : checksum) (w : world) :
  f_registry (c_fetcher c) !! file_part subject run = Some h ->
  files w !! destination subject c run = Some h ->
  exists w',
    fetch_run subject c false up run w = (Ok (destination subject c run), w')
    /\ files w' = files w
    /\ trace w' = trace w ++ iteration subject c up run false 0
    /\ same_surroundings w w'
    /\ (config w' = config w \/ config w' = <[config_key := c_path c]> (config w)).
Proof.
  intros Hr Hf. unfold fetch_run, fetch_and_update.
  rewrite (bind_run _ _ w w false) by reflexivity.
  rewrite (bind_run _ _ w w tt) by reflexivity.
  pose proof Hc as Hpath. unfold coherent in Hpath.
  unfold destination in *. rewrite <- Hpath in *.
  erewrite bind_run by (eapply fetch_valid; eauto).
  destruct (do_path_update_run (c_path c) up (record (EvFetch (file_part subject run)) w))
    as (w5 & Hu' & Uf & Ut & Us & Uc & _).
  erewrite bind_run by exact Hu'.
  exists w5. split; [reflexivity|]. repeat split; try apply Us; auto.
  rewrite Ut. cbn. unfold iteration, destination. rewrite <- app_assoc. reflexivity.
Qed.

End Iteration.

(** ** The whole loop *)

Section Loop.

(** What is known once the preparation has ended well. *)
Lemma prepare_ok (path : option string) (base_url : string) (c : context)
      (w w0 : world) :
  prepare path base_url w = (Ok c, w0) ->
  coherent c
  /\ c_path c = resolve_path path config_key w
  /\ base_path (c_path c) base_url = Ok (c_base_path c)
  /\ c_fetcher c = Fetcher (c_base_path c) base_url 2 (bundled w ∪ ∅)
  /\ files w0 = files w /\ config w0 = config w
  /\ trace w0 = trace w ++ preparation path c
  /\ same_surroundings w w0.
Proof.
  unfold prepare. rewrite (bind_run _ _ _ _ _ (get_path_run _ _ _ _)).
  intros H. apply bind_ok in H as (bp & w1 & Hbp & H).
  unfold lift in Hbp. inversion Hbp; subst w1; clear Hbp.
  unfold make_fetcher, pooch_create, resource_stream, load_registry, bind, log, ret in H.
  cbn in H. inversion H; subst; clear H. cbn.
  repeat split; auto.
  unfold preparation. cbn. rewrite <- !app_assoc. reflexivity.
Qed.

Variables (subject : Z) (c : context) (up : option bool).
Hypothesis Hc : coherent c.

Lemma config_step (m m1 m2 : gmap string string) (p : string) :
  m1 = m \/ m1 = <[config_key := p]> m ->
  m2 = m1 \/ m2 = <[config_key := p]> m1 ->
  m2 = m \/ m2 = <[config_key := p]> m.
Proof.
  intros [-> | ->] [-> | ->]; auto. right. apply insert_insert_eq.
Qed.

(** A loop that ends well returns the destinations of the runs, in
    order, and logs one iteration per run. *)
Lemma for_each_ok (fu : bool) (runs : list Z) (ps : list string) (w w' : world) :
  for_each (fetch_run subject c fu up) runs w = (Ok ps, w') ->
  ps = map (destination subject c) runs
  /\ same_surroundings w w'
  /\ (config w' = config w \/ config w' = <[config_key := c_path c]> (config w))
  /\ (exists its, length its = length runs
                  /\ trace w' = trace w ++ loop_trace subject c up runs its)
  /\ (fu = false ->
      files w ⊆ files w'
      /\ forall run, run ∈ runs ->
           exists h, f_registry (c_fetcher c) !! file_part subject run = Some h
                     /\ files w' !! destination subject c run = Some h).
Proof.
  revert ps w. induction runs as [|run runs IH]; intros ps w H; cbn in H.
  - unfold ret in H. inversion H; subst. repeat split; auto using same_surroundings_refl.
    + exists []. split; [reflexivity|]. unfold loop_trace. cbn. now rewrite app_nil_r.
    + intros run Hin. inversion Hin.
  - apply bind_ok in H as (y & w1 & Hrun & H).
    apply bind_ok in H as (ys & w2 & Hrest & H).
    unfold ret in H. inversion H; subst; clear H.
    apply (fetch_run_ok subject c up Hc) in Hrun
      as (h & k & -> & Hr & Hf & Ht & Hs & Hcfg & _ & Hk).
    apply IH in Hrest as (-> & Hs' & Hcfg' & (its & Hlen & Ht') & Hfu).
    split; [reflexivity|]. split; [eauto using same_surroundings_trans|].
    split; [eauto using config_step|]. split.
    + eexists ((_, k) :: its). split; [cbn; now rewrite Hlen|].
      rewrite Ht', Ht. unfold loop_trace. cbn. rewrite <- app_assoc. reflexivity.
    + intros ->. destruct (Hfu eq_refl) as [Hsub Hall].
      assert (Hsub1 : files w ⊆ files w1).
      { rewrite Hf. cbn in Hk. destruct Hk as [(_ & _ & Hk)|(_ & [Hk|Hk])].
        - rewrite insert_id by exact Hk. reflexivity.
        - discriminate.
        - now apply insert_subseteq. }
      split; [etrans; eauto|].
      intros r Hin. apply elem_of_cons in Hin as [->|Hin]; [|auto].
      exists h. split; [exact Hr|].
      eapply lookup_weaken; [|exact Hsub]. rewrite Hf. apply lookup_insert_eq.
Qed.

(** Without [force_update], a loop over files that are all present
    and valid returns their paths without any transfer. *)
Lemma for_each_valid (runs : list Z) (w : world) :
  (forall run, run ∈ runs ->
     exists h, f_registry (c_fetcher c) !! file_part subject run = Some h
               /\ files w !! destination subject c run = Some h) ->
  exists w',
    for_each (fetch_run subject c false up) runs w
    = (Ok (map (destination subject c) runs), w')
    /\ files w' = files w
    /\ trace w' = trace w ++ loop_trace subject c up runs (map (fun _ => (false, 0%nat)) runs)
    /\ same_surroundings w w'.
Proof.
  revert w. induction runs as [|run runs IH]; intros w Hall.
  - exists w. repeat split. unfold loop_trace. cbn. now rewrite app_nil_r.
  - destruct (Hall run) as (h & Hr & Hf); [now left|].
    destruct (fetch_run_valid subject c up Hc run h w Hr Hf)
      as (w1 & Hrun & Hf1 & Ht1 & Hs1 & _).
    destruct (IH w1) as (w2 & Hrest & Hf2 & Ht2 & Hs2).
    { intros r Hin. rewrite Hf1. apply Hall. now right. }
    exists w2. cbn [for_each map].
    rewrite (bind_run _ _ _ _ _ Hrun), (bind_run _ _ _ _ _ Hrest).
    split; [reflexivity|]. split; [congruence|].
    split; [|eauto using same_surroundings_trans].
    rewrite Ht2, Ht1. unfold loop_trace. cbn. rewrite <- app_assoc. reflexivity.
Qed.

End Loop.

(** ** Frames: what a fetch never does *)

Section Frames.

Lemma no_removal_app (l1 l2 : list event) :
  forallb (fun e => negb (is_removal e)) l1 = true ->
  forallb (fun e => negb (is_removal e)) l2 = true ->
  forallb (fun e => negb (is_removal e)) (l1 ++ l2) = true.
Proof. intros H1 H2. rewrite forallb_app, H1, H2. reflexivity. Qed.

(** A transfer, however it ends, removes nothing and touches no file
    but its destination. *)
Lemma download_frame (retries : nat) (url dest : string) (w w' : world)
      (res : result unit) :
  download retries url dest w = (res, w') ->
  files w !! dest = None ->
  files w ⊆ files w'
  /\ exists evs, trace w' = trace w ++ evs
                 /\ forallb (fun e => negb (is_removal e)) evs = true.
Proof.
  revert w. induction retries as [|r IH]; intros w H Hd; cbn in H.
  - destruct (remote w (now w) url) as [x|]; inversion H; subst; cbn.
    + split; [now apply insert_subseteq|]. exists [EvTransfer url]. auto.
    + split; [reflexivity|]. exists [EvTransfer url]. auto.
  - destruct (remote w (now w) url) as [x|].
    + inversion H; subst; cbn.
      split; [now apply insert_subseteq|]. exists [EvTransfer url]. auto.
    + apply IH in H as (Hs & evs & Ht & Hn); [|exact Hd].
      split; [exact Hs|]. exists (EvTransfer url :: evs). cbn in *.
      rewrite Ht, <- app_assoc. auto.
Qed.

(** A fetch, however it ends, removes nothing and keeps every file. *)
Lemma fetch_frame (f : fetcher) (fname : string) (w w' : world)
      (res : result string) :
  fetch f fname w = (res, w') ->
  files w ⊆ files w'
  /\ exists evs, trace w' = trace w ++ evs
                 /\ forallb (fun e => negb (is_removal e)) evs = true.
Proof.
  intros H. unfold fetch in H.
  rewrite (bind_run _ _ w (record (EvFetch fname) w) tt) in H by reflexivity.
  destruct (f_registry f !! fname) as [h|].
  2:{ inversion H; subst. split; [reflexivity|]. exists [EvFetch fname]. auto. }
  set (dest := op_join (f_path f) [fname]) in *.
  rewrite (bind_run (isfile dest) _ _ _ _ eq_refl) in H. cbn [files record] in H.
  destruct (files w !! dest) as [x|] eqn:E.
  - rewrite bool_decide_eq_true_2 in H by eauto.
    rewrite (bind_run (ret tt) _ _ _ _ eq_refl) in H.
    assert (w' = record (EvFetch fname) w) as ->
        by (destruct (bool_decide _); now inversion H).
    split; [reflexivity|]. exists [EvFetch fname]. auto.
  - rewrite bool_decide_eq_false_2 in H by apply is_Some_None.
    unfold bind in H.
    destruct (download _ _ _ _) as [[[]|e] w1] eqn:Hd.
    all: apply download_frame in Hd as (Hs & evs & Ht & Hn); [|exact E].
    all: cbn in Hs, Ht.
    all: assert (w' = w1) as ->
        by (try destruct (bool_decide (files w1 !! dest = Some h)); now inversion H).
    all: split; [exact Hs|]; exists (EvFetch fname :: evs).
    all: rewrite Ht, <- app_assoc; auto.
Qed.

(** So does the fetch followed by the path update. *)
Lemma fetch_and_update_frame (subject : Z) (c : context) (up : option bool)
      (run : Z) (w w' : world) (res : result string) :
  fetch_and_update subject c up run w = (res, w') ->
  files w ⊆ files w'
  /\ exists evs, trace w' = trace w ++ evs
                 /\ forallb (fun e => negb (is_removal e)) evs = true.
Proof.
  unfold fetch_and_update, bind.
  destruct (fetch _ _ w) as [[y|e] w1] eqn:Hf; intros H.
  - apply fetch_frame in Hf as (Hs & evs & Ht & Hn).
    destruct (do_path_update_run (c_path c) up w1) as (w2 & Hu & Uf & Ut & _).
    rewrite Hu in H. unfold ret in H. inversion H; subst.
    split; [now rewrite Uf|]. exists (evs ++ [EvPathUpdate (c_path c) up config_key name]).
    rewrite Ut, Ht, <- app_assoc. split; [reflexivity|].
    apply no_removal_app; auto.
  - inversion H; subst. eapply fetch_frame; eauto.
Qed.

End Frames.

(** ** [load_data] as a whole *)

Lemma load_data_ok (subject : Z) (runs : runs_arg) (path : option string)
      (fu : bool) (up : option bool) (base_url : string) (ps : list string)
      (w w' : world) :
  load_data subject runs path fu up base_url w = (Ok ps, w') ->
  exists c w0,
    prepare path base_url w = (Ok c, w0)
    /\ for_each (fetch_run subject c fu up) (run_list runs) w0 = (Ok ps, w').
Proof. intros H. now apply bind_ok in H. Qed.

Lemma file_part_relative (subject run : Z) :
  Str.startswith (file_part subject run) "/" = false.
Proof. reflexivity. Qed.

Lemma op_join_file (d : string) (subject run : Z) :
  op_join d [file_part subject run] = with_sep d +:+ file_part subject run.
Proof.
  unfold op_join, with_sep. rewrite file_part_relative.
  destruct (String.eqb d "" || Str.endswith d "/"); [reflexivity|].
  now rewrite sapp_assoc.
Qed.

(** The preparation ends well whenever the URL is accepted, and depends
    on the world only through the resolved path and the bundled file. *)
Lemma prepare_run (path : option string) (base_url bp : string) (w : world) :
  base_path (resolve_path path config_key w) base_url = Ok bp ->
  let c := Context (resolve_path path config_key w) bp
                   (Fetcher bp base_url 2 (bundled w ∪ ∅)) in
  exists w0,
    prepare path base_url w = (Ok c, w0)
    /\ files w0 = files w /\ config w0 = config w
    /\ trace w0 = trace w ++ preparation path c
    /\ same_surroundings w w0.
Proof.
  intros Hbp c. unfold prepare.
  rewrite (bind_run _ _ _ _ _ (get_path_run _ _ _ _)).
  unfold lift. rewrite (bind_run (fun w => (_, w)) _ _ _ bp) by (now rewrite Hbp).
  eexists. split; [reflexivity|]. cbn. repeat split.
  unfold preparation. cbn. rewrite <- !app_assoc. reflexivity.
Qed.

(** The resolved path does not change when the configuration is left
    alone or the resolved path itself is stored. *)
Lemma resolve_path_stable (path : option string) (w w1 : world) :
  same_surroundings w w1 ->
  config w1 = config w
  \/ config w1 = <[config_key := resolve_path path config_key w]> (config w) ->
  resolve_path path config_key w1 = resolve_path path config_key w.
Proof.
  intros (Hr & Hb & Hh & Hn & Ha) Hcfg. unfold resolve_path in *.
  destruct path as [p|]; [now rewrite Hn|].
  destruct Hcfg as [-> | ->]; [now rewrite Hh|].
  now rewrite lookup_insert_eq.
Qed.

Lemma loop_trace_quiet (subject : Z) (c : context) (up : option bool) (runs : list Z) :
  forallb (fun e => negb (is_transfer e))
          (loop_trace subject c up runs (map (fun _ => (false, 0%nat)) runs)) = true.
Proof.
  induction runs as [|r runs IH]; [reflexivity|].
  unfold loop_trace in *. cbn. exact IH.
Qed.

(** C5: with [force_update=True], an iteration whose destination exists
    removes it first, whatever its content, asking nothing and keeping
    no copy, and only then fetches; an iteration whose destination does
    not exist goes straight to the fetch, and nothing is removed. *)
Theorem C5_forced_update (subject : Z) (c : context) (up : option bool)
        (run : Z) (w : world) :
  (forall runs path base_url,
      load_data subject runs path true up base_url
      = (c0 <- prepare path base_url ;;
         for_each (fetch_run subject c0 true up) (run_list runs)))
  /\ (forall content, files w !! destination subject c run = Some content ->
        fetch_run subject c true up run w
        = fetch_and_update subject c up run
            (record (EvRemove (destination subject c run))
                    (set_files (delete (destination subject c run)) w)))
  /\ (files w !! destination subject c run = None ->
      fetch_run subject c true up run w = fetch_and_update subject c up run w
      /\ forall res w', fetch_run subject c true up run w = (res, w') ->
           files w ⊆ files w'
           /\ exists evs, trace w' = trace w ++ evs
                          /\ forallb (fun e => negb (is_removal e)) evs = true).
Proof.
  set (dest := destination subject c run).
  split; [reflexivity|]. split.
  - intros content Hf. unfold fetch_run. fold dest.
    rewrite (bind_run (isfile dest) _ w w true).
    2:{ unfold isfile. rewrite bool_decide_eq_true_2 by eauto. reflexivity. }
    erewrite bind_run; [reflexivity|]. unfold os_remove. now rewrite Hf.
  - intros Hf.
    assert (Heq : fetch_run subject c true up run w = fetch_and_update subject c up run w).
    { unfold fetch_run. fold dest.
      rewrite (bind_run (isfile dest) _ w w false).
      2:{ unfold isfile. rewrite Hf, bool_decide_eq_false_2 by apply is_Some_None.
          reflexivity. }
      now rewrite (bind_run (ret tt) _ w w tt). }
    split; [exact Heq|]. intros res w' H. rewrite Heq in H.
    eapply fetch_and_update_frame; eauto.
Qed.

(** C6: when every fetch succeeds, the paths returned are those of the
    runs given, one per run, in the order given, with repetitions kept:
    each is the cache directory followed by the file name of its run.
    In the demo world, subject 1 and runs 4, 10, 14 give three paths. *)
Theorem C6_paths (subject : Z) (runs : runs_arg) (path : option string)
        (fu : bool) (up : option bool) (base_url : string) (ps : list string)
        (w w' : world) :
  load_data subject runs path fu up base_url w = (Ok ps, w') ->
  (exists bp,
      base_path (resolve_path path config_key w) base_url = Ok bp
      /\ ps = map (fun run => with_sep bp +:+ file_part subject run) (run_list runs))
  /\ length ps = length (run_list runs)
  /\ (load_data 1 (RunList [4; 10; 14]) None false None EEGMI_URL demo_world).1
     = Ok ["/home/user/mne_data/MNE-eegbci-data/files/eegmmidb/1.0.0/S001/S001R04.edf";
           "/home/user/mne_data/MNE-eegbci-data/files/eegmmidb/1.0.0/S001/S001R10.edf";
           "/home/user/mne_data/MNE-eegbci-data/files/eegmmidb/1.0.0/S001/S001R14.edf"].
Proof.
  intros H. apply load_data_ok in H as (c & w0 & Hp & Hl).
  apply prepare_ok in Hp as (Hc & Hpath & Hbp & _).
  apply (for_each_ok subject c up Hc) in Hl as (-> & _).
  split; [|split].
  - exists (c_base_path c). rewrite <- Hpath. split; [exact Hbp|].
    apply map_ext. intros run. apply op_join_file.
  - apply length_map.
  - vm_compute. reflexivity.
Qed.

(** C7: a second call with the same arguments and without
    [force_update], made in the world a first successful call left
    behind, returns the same paths without a single transfer and leaves
    the files as they are: every destination is found present and valid
    before any transfer. *)
Theorem C7_second_call (subject : Z) (runs : runs_arg) (path : option string)
        (up : option bool) (base_url : string) (ps : list string) (w w1 : world) :
  load_data subject runs path false up base_url w = (Ok ps, w1) ->
  exists w2 evs,
    load_data subject runs path false up base_url w1 = (Ok ps, w2)
    /\ files w2 = files w1
    /\ trace w2 = trace w1 ++ evs
    /\ forallb (fun e => negb (is_transfer e)) evs = true.
Proof.
  intros H. apply load_data_ok in H as (c & w0 & Hp & Hl).
  apply prepare_ok in Hp as (Hc & Hpath & Hbp & Hf & Hfiles & Hcfg & Htr & Hs).
  apply (for_each_ok subject c up Hc) in Hl as (-> & Hs1 & Hcfg1 & _ & Hvalid).
  destruct (Hvalid eq_refl) as [_ Hall]. clear Hvalid.
  assert (Hsw : same_surroundings w w1) by eauto using same_surroundings_trans.
  assert (Hres : resolve_path path config_key w1 = resolve_path path config_key w).
  { apply resolve_path_stable; [exact Hsw|]. rewrite <- Hpath, <- Hcfg. exact Hcfg1. }
  assert (Hbp1 : base_path (resolve_path path config_key w1) base_url = Ok (c_base_path c))
    by now rewrite Hres, <- Hpath.
  destruct (prepare_run path base_url (c_base_path c) w1 Hbp1)
    as (w0' & Hp' & Hf' & _ & Ht' & Hs').
  assert (Hctx : Context (resolve_path path config_key w1) (c_base_path c)
                         (Fetcher (c_base_path c) base_url 2 (bundled w1 ∪ ∅)) = c).
  { destruct Hsw as (_ & Hb & _). rewrite Hres, Hb, <- Hpath, <- Hf. now destruct c. }
  rewrite Hctx in Hp', Ht'.
  destruct (for_each_valid subject c up Hc (run_list runs) w0')
    as (w2 & Hl' & Hf2 & Ht2 & _).
  { intros run Hin. rewrite Hf'. now apply Hall. }
  exists w2. eexists. split; [|split; [|split]].
  - unfold load_data. rewrite (bind_run _ _ _ _ _ Hp'). exact Hl'.
  - congruence.
  - rewrite Ht2, Ht', <- app_assoc. reflexivity.
  - rewrite forallb_app, loop_trace_quiet. reflexivity.
Qed.

(** C8: in a call that ends well, every iteration of the loop ends with
    one path update, made after the fetch of its run with the resolved
    path and the [update_path] argument; in any iteration, a fetch that
    ends well is followed by the path update; and a path update leaves
    the configuration store as it is when the path is stored already,
    when [update_path] is false, or when the user declines. *)
Theorem C8_path_update (subject : Z) (runs : runs_arg) (path : option string)
        (fu : bool) (up : option bool) (base_url : string) (ps : list string)
        (w w' : world) :
  load_data subject runs path fu up base_url w = (Ok ps, w') ->
  (exists c its,
      c_path c = resolve_path path config_key w
      /\ length its = length (run_list runs)
      /\ trace w' = trace w ++ preparation path c
                      ++ loop_trace subject c up (run_list runs) its)
  /\ (forall c run v y v1,
        fetch (c_fetcher c) (file_part subject run) v = (Ok y, v1) ->
        exists v2, _do_path_update (c_path c) up config_key name v1 = (Ok tt, v2)
                   /\ fetch_and_update subject c up run v = (Ok y, v2))
  /\ (forall p v,
        config v !! config_key = Some p \/ up = Some false
        \/ (up = None /\ answer v (now v) = false) ->
        exists v', _do_path_update p up config_key name v = (Ok tt, v')
                   /\ config v' = config v /\ files v' = files v).
Proof.
  intros H. split; [|split].
  - apply load_data_ok in H as (c & w0 & Hp & Hl).
    apply prepare_ok in Hp as (Hc & Hpath & _ & _ & _ & _ & Htr & _).
    apply (for_each_ok subject c up Hc) in Hl as (_ & _ & _ & (its & Hlen & Ht) & _).
    exists c, its. repeat split; auto. rewrite Ht, Htr, <- app_assoc. reflexivity.
  - intros c run v y v1 Hf.
    destruct (do_path_update_run (c_path c) up v1) as (v2 & Hu & _).
    exists v2. split; [exact Hu|]. unfold fetch_and_update.
    rewrite (bind_run _ _ _ _ _ Hf), (bind_run _ _ _ _ _ Hu). reflexivity.
  - intros p v Hno.
    destruct (do_path_update_run p up v) as (v' & Hu & Uf & _ & _ & _ & Uc).
    exists v'. auto.
Qed.

(** C9: a single run given as a bare integer is treated as the list of
    that one run, so the call returns what the call with the one-element
    list returns, a list of one path when it ends well. *)
Theorem C9_single_run (subject run : Z) (path : option string) (fu : bool)
        (up : option bool) (base_url : string) (ps : list string) (w w' : world) :
  load_data subject (RunInt run) path fu up base_url w = (Ok ps, w') ->
  load_data subject (RunInt run) path fu up base_url
  = load_data subject (RunList [run]) path fu up base_url
  /\ run_list (RunInt run) = [run]
  /\ exists p, ps = [p].
Proof.
  intros H. split; [reflexivity|]. split; [reflexivity|].
  apply load_data_ok in H as (c & w0 & Hp & Hl).
  apply prepare_ok in Hp as (Hc & _).
  apply (for_each_ok subject c up Hc) in Hl as (-> & _).
  cbn. eauto.
Qed.

(** ** The theorems at work in the demo world *)

Lemma C5_forced_update_witness :
  fetch_run 1 demo_context true None 4 demo_world_cached
  = fetch_and_update 1 demo_context None 4
      (record (EvRemove (destination 1 demo_context 4))
              (set_files (delete (destination 1 demo_context 4)) demo_world_cached))
  /\ fetch_run 1 demo_context true None 4 demo_world
     = fetch_and_update 1 demo_context None 4 demo_world.
Proof.
  split.
  - apply (proj1 (proj2 (C5_forced_update 1 demo_context None 4 demo_world_cached)) 4%N).
    vm_compute. reflexivity.
  - apply (proj2 (proj2 (C5_forced_update 1 demo_context None 4 demo_world))).
    vm_compute. reflexivity.
Defined.

Lemma C6_paths_witness :
  (exists bp,
      base_path (resolve_path (Some "/data") config_key demo_world) EEGMI_URL = Ok bp
      /\ ["/data/MNE-eegbci-data/files/eegmmidb/1.0.0/S001/S001R04.edf";
          "/data/MNE-eegbci-data/files/eegmmidb/1.0.0/S001/S001R04.edf";
          "/data/MNE-eegbci-data/files/eegmmidb/1.0.0/S001/S001R10.edf"]
         = map (fun run => with_sep bp +:+ file_part 1 run) [4; 4; 10])
  /\ length ["/data/MNE-eegbci-data/files/eegmmidb/1.0.0/S001/S001R04.edf";
             "/data/MNE-eegbci-data/files/eegmmidb/1.0.0/S001/S001R04.edf";
             "/data/MNE-eegbci-data/files/eegmmidb/1.0.0/S001/S001R10.edf"] = 3%nat
  /\ (load_data 1 (RunList [4; 10; 14]) None false None EEGMI_URL demo_world).1
     = Ok ["/home/user/mne_data/MNE-eegbci-data/files/eegmmidb/1.0.0/S001/S001R04.edf";
           "/home/user/mne_data/MNE-eegbci-data/files/eegmmidb/1.0.0/S001/S001R10.edf";
           "/home/user/mne_data/MNE-eegbci-data/files/eegmmidb/1.0.0/S001/S001R14.edf"].
Proof.
  apply (C6_paths 1 (RunList [4; 4; 10]) (Some "/data") true (Some false) EEGMI_URL _
                  demo_world
                  (load_data 1 (RunList [4; 4; 10]) (Some "/data") true (Some false)
                             EEGMI_URL demo_world).2).
  vm_compute. reflexivity.
Defined.

Lemma C7_second_call_witness :
  exists w2 evs,
    load_data 1 (RunList [4; 10; 14]) None false None EEGMI_URL demo_world_cached
    = (Ok ["/home/user/mne_data/MNE-eegbci-data/files/eegmmidb/1.0.0/S001/S001R04.edf";
           "/home/user/mne_data/MNE-eegbci-data/files/eegmmidb/1.0.0/S001/S001R10.edf";
           "/home/user/mne_data/MNE-eegbci-data/files/eegmmidb/1.0.0/S001/S001R14.edf"],
       w2)
    /\ files w2 = files demo_world_cached
    /\ trace w2 = trace demo_world_cached ++ evs
    /\ forallb (fun e => negb (is_transfer e)) evs = true.
Proof.
  apply (C7_second_call 1 (RunList [4; 10; 14]) None None EEGMI_URL _ demo_world).
  vm_compute. reflexivity.
Defined.

Lemma C8_path_update_witness :
  (exists c its,
      c_path c = resolve_path None config_key demo_world
      /\ length its = length [4; 10; 14]
      /\ trace demo_world_cached
         = trace demo_world ++ preparation None c ++ loop_trace 1 c None [4; 10; 14] its)
  /\ (forall c run v y v1,
        fetch (c_fetcher c) (file_part 1 run) v = (Ok y, v1) ->
        exists v2, _do_path_update (c_path c) None config_key name v1 = (Ok tt, v2)
                   /\ fetch_and_update 1 c None run v = (Ok y, v2))
  /\ (forall p v,
        config v !! config_key = Some p \/ @None bool = Some false
        \/ (@None bool = None /\ answer v (now v) = false) ->
        exists v', _do_path_update p None config_key name v = (Ok tt, v')
                   /\ config v' = config v /\ files v' = files v).
Proof.
  apply (C8_path_update 1 (RunList [4; 10; 14]) None false None EEGMI_URL
          ["/home/user/mne_data/MNE-eegbci-data/files/eegmmidb/1.0.0/S001/S001R04.edf";
           "/home/user/mne_data/MNE-eegbci-data/files/eegmmidb/1.0.0/S001/S001R10.edf";
           "/home/user/mne_data/MNE-eegbci-data/files/eegmmidb/1.0.0/S001/S001R14.edf"]
          demo_world demo_world_cached).
  vm_compute. reflexivity.
Defined.

Lemma C9_single_run_witness :
  load_data 1 (RunInt 4) None false None EEGMI_URL
  = load_data 1 (RunList [4]) None false None EEGMI_URL
  /\ run_list (RunInt 4) = [4]
  /\ exists p,
      ["/home/user/mne_data/MNE-eegbci-data/files/eegmmidb/1.0.0/S001/S001R04.edf"] = [p].
Proof.
  apply (C9_single_run 1 4 None false None EEGMI_URL _ demo_world
           (load_data 1 (RunInt 4) None false None EEGMI_URL demo_world).2).
  vm_compute. reflexivity.
Defined.

(** * Further properties *)

(** ** [data_path] *)

Section DataPathFacts.

Variable url_to_local_path : string -> string -> result string.
Variable fetch_file : string -> string -> M unit.
Variable isdir : string -> M bool.
Variable makedirs : string -> M unit.

Lemma bind_assoc {A B C} (m : M A) (f : A -> M B) (g : B -> M C) (w : world) :
  bind (bind m f) g w = bind m (fun x => bind (f x) g) w.
Proof. unfold bind. destruct (m w) as [[a|e] w1]; reflexivity. Qed.

Lemma bind_ext {A B} (m : M A) (f g : A -> M B) (w : world) :
  (forall a v, f a v = g a v) -> bind m f w = bind m g w.
Proof. intros H. unfold bind. destruct (m w) as [[a|e] w1]; auto. Qed.

Lemma isfile_run (p : string) (w : world) :
  isfile p w = (Ok (bool_decide (is_Some (files w !! p))), w).
Proof. reflexivity. Qed.

(** X14: a file that is cached is not fetched again unless forced: the call
    resolves the path, updates the stored path and returns the local
    path, without removing, creating or fetching anything. *)
Theorem data_path_cached (url : string) (path : option string)
        (up : option bool) (dest : string) (content : checksum) (w : world) :
  url_to_local_path url (op_join (resolve_path path config_key w) ["MNE-eegbci-data"])
  = Ok dest ->
  files w !! dest = Some content ->
  exists w',
    data_path url_to_local_path fetch_file isdir makedirs url path false up w = (Ok [dest], w')
    /\ files w' = files w
    /\ trace w' = trace w ++ [EvGetPath path config_key name;
                              EvPathUpdate (resolve_path path config_key w) up
                                           config_key name].
Proof.
  intros Hl Hf. unfold data_path, config_key, name in *.
  rewrite (bind_run _ _ _ _ _ (get_path_run _ _ _ _)). cbv beta.
  unfold lift at 1.
  rewrite (bind_run (fun w => (_, w)) _ _ _ dest) by (now rewrite Hl).
  unfold fetch_if_needed.
  set (w1 := record (EvGetPath path "MNE_DATASETS_EEGBCI_PATH" "EEGBCI") w).
  assert (Hp : isfile dest w1 = (Ok true, w1)).
  { unfold isfile. cbn [files record w1]. now rewrite bool_decide_eq_true_2 by eauto. }
  unfold bind at 1 2. rewrite Hp. cbn [negb orb]. unfold ret at 1.
  destruct (do_path_update_run (resolve_path path config_key w) up w1)
    as (w' & Hu & Uf & Ut & _).
  unfold config_key, name in Hu, Ut.
  exists w'. rewrite (bind_run _ _ _ _ _ Hu).
  split; [reflexivity|]. split; [exact Uf|].
  rewrite Ut. cbn. rewrite <- app_assoc. reflexivity.
Qed.

(** X15: with [force_update], a cached file is removed before anything else
    is done for it: the directory check, the fetch and the path update
    run in the world without the file. *)
Theorem data_path_forced (url : string) (path : option string)
        (up : option bool) (dest : string) (content : checksum) (w : world) :
  url_to_local_path url (op_join (resolve_path path config_key w) ["MNE-eegbci-data"])
  = Ok dest ->
  files w !! dest = Some content ->
  data_path url_to_local_path fetch_file isdir makedirs url path true up w
  = (there <- isdir (op_dirname dest) ;;
     (if negb there then makedirs (op_dirname dest) else ret tt) ;;;
     fetch_file url dest ;;;
     _do_path_update (resolve_path path config_key w) up config_key name ;;;
     ret [dest])
      (record (EvRemove dest)
              (set_files (delete dest) (record (EvGetPath path config_key name) w))).
Proof.
  intros Hl Hf. unfold data_path, config_key, name in *.
  rewrite (bind_run _ _ _ _ _ (get_path_run _ _ _ _)). cbv beta.
  unfold lift at 1.
  rewrite (bind_run (fun w => (_, w)) _ _ _ dest) by (now rewrite Hl).
  unfold fetch_if_needed.
  set (w1 := record (EvGetPath path "MNE_DATASETS_EEGBCI_PATH" "EEGBCI") w).
  assert (Hp : isfile dest w1 = (Ok true, w1)).
  { unfold isfile. cbn [files record w1]. now rewrite bool_decide_eq_true_2 by eauto. }
  assert (Hr : os_remove dest w1
               = (Ok tt, record (EvRemove dest) (set_files (delete dest) w1))).
  { unfold os_remove. cbn [files record w1]. now rewrite Hf. }
  rewrite bind_assoc, (bind_run _ _ _ _ _ Hp). cbn [negb orb].
  rewrite bind_assoc, (bind_run _ _ _ _ _ Hp). cbv beta iota.
  rewrite bind_assoc, (bind_run _ _ _ _ _ Hr). cbv beta.
  rewrite bind_assoc. apply bind_ext. intros there v.
  apply bind_assoc.
Qed.

(** X16: for a file that is not cached, [force_update] makes no difference. *)
Theorem data_path_missing (url : string) (path : option string)
        (up : option bool) (dest : string) (w : world) :
  url_to_local_path url (op_join (resolve_path path config_key w) ["MNE-eegbci-data"])
  = Ok dest ->
  files w !! dest = None ->
  data_path url_to_local_path fetch_file isdir makedirs url path true up w = data_path url_to_local_path fetch_file isdir makedirs url path false up w.
Proof.
  intros Hl Hf. unfold data_path, config_key, name in *.
  rewrite !(bind_run _ _ _ _ _ (get_path_run _ _ _ _)). cbv beta.
  unfold lift.
  rewrite !(bind_run (fun w => (_, w)) _ _ _ dest) by (now rewrite Hl).
  unfold fetch_if_needed.
  set (w1 := record (EvGetPath path "MNE_DATASETS_EEGBCI_PATH" "EEGBCI") w).
  assert (Hp : isfile dest w1 = (Ok false, w1)).
  { unfold isfile. cbn [files record w1]. rewrite Hf.
    now rewrite bool_decide_eq_false_2 by apply is_Some_None. }
  unfold bind at 1 2. rewrite Hp. symmetry. unfold bind at 1 2. rewrite Hp.
  reflexivity.
Qed.

(** X17: whenever the call returns, it returns a list of length one holding
    the local path computed from the URL and the resolved directory. *)
Theorem data_path_singleton (url : string) (path : option string) (fu : bool)
        (up : option bool) (ps : list string) (w w' : world) :
  data_path url_to_local_path fetch_file isdir makedirs url path fu up w = (Ok ps, w') ->
  exists dest,
    url_to_local_path url (op_join (resolve_path path config_key w) ["MNE-eegbci-data"])
    = Ok dest
    /\ ps = [dest].
Proof.
  unfold data_path, config_key, name. intros H.
  rewrite (bind_run _ _ _ _ _ (get_path_run _ _ _ _)) in H. cbv beta in H.
  apply bind_ok in H as (dest & w1 & Hl & H).
  unfold lift in Hl. inversion Hl as [[Hd Hw]]. clear Hl.
  apply bind_ok in H as ([] & w2 & _ & H).
  apply bind_ok in H as ([] & w3 & _ & H).
  unfold ret in H. inversion H; subst. eauto.
Qed.

End DataPathFacts.

(** ** File names of distinct runs *)

Section FileNames.

Lemma digit_inj (a b : Z) :
  0 <= a < 10 -> 0 <= b < 10 -> Spec.digit a = Spec.digit b -> a = b.
Proof.
  intros Ha Hb H. unfold Spec.digit in H.
  apply (f_equal N_of_ascii) in H.
  rewrite !N_ascii_embedding in H by lia. lia.
Qed.

Lemma padded3_inj (a b : Z) :
  0 <= a < 1000 -> 0 <= b < 1000 -> Spec.padded3 a = Spec.padded3 b -> a = b.
Proof.
  intros Ha Hb H. unfold Spec.padded3 in H.
  inversion H as [[H1 H2 H3]].
  apply digit_inj in H1, H2, H3;
    try (split; [apply Z.div_pos || apply Z.mod_pos_bound; lia
                |apply Z.div_lt_upper_bound || apply Z.mod_pos_bound; lia]).
  rewrite (Z.div_mod a 10), (Z.div_mod b 10) by lia.
  rewrite (Z.div_mod (a / 10) 10), (Z.div_mod (b / 10) 10) by lia.
  rewrite !Z.div_div by lia. change (10 * 10) with 100. lia.
Qed.

Lemma padded2_inj (a b : Z) :
  0 <= a < 100 -> 0 <= b < 100 -> Spec.padded2 a = Spec.padded2 b -> a = b.
Proof.
  intros Ha Hb H. unfold Spec.padded2 in H.
  inversion H as [[H1 H2]].
  apply digit_inj in H1, H2;
    try (split; [apply Z.div_pos || apply Z.mod_pos_bound; lia
                |apply Z.div_lt_upper_bound || apply Z.mod_pos_bound; lia]).
  rewrite (Z.div_mod a 10), (Z.div_mod b 10) by lia. lia.
Qed.

Lemma file_part_fields (s r s' r' : Z) :
  valid_subject s -> valid_run r -> valid_subject s' -> valid_run r' ->
  file_part s r = file_part s' r' ->
  Spec.padded3 s = Spec.padded3 s' /\ Spec.padded2 r = Spec.padded2 r'.
Proof.
  unfold valid_subject, valid_run. intros Hs Hr Hs' Hr' H.
  unfold file_part in H. rewrite !format_0d_3, !format_0d_2 in H by lia.
  unfold Spec.padded3, Spec.padded2 in *.
  cbv [String.append] in H. inversion H. split; congruence.
Qed.

(** X1: two requests for valid subjects and runs have the same relative
    file name only if they are the same request. *)
Theorem file_part_inj (s r s' r' : Z) :
  valid_subject s -> valid_run r -> valid_subject s' -> valid_run r' ->
  file_part s r = file_part s' r' -> s = s' /\ r = r'.
Proof.
  intros Hs Hr Hs' Hr' H.
  destruct (file_part_fields s r s' r' Hs Hr Hs' Hr' H) as [H3 H2].
  unfold valid_subject, valid_run in *.
  split; [apply padded3_inj in H3|apply padded2_inj in H2]; lia.
Qed.

End FileNames.

Lemma file_part_inj_witness : 3 = 3 /\ 7 = 7.
Proof.
  apply (file_part_inj 3 7 3 7); unfold valid_subject, valid_run; try lia.
  reflexivity.
Defined.

(** ** [load_data]: edges and frames *)

Lemma base_path_accepted (path base_url : string) :
  is_Some (match_base_url base_url) -> exists bp, base_path path base_url = Ok bp.
Proof.
  intros [g Hg].
  destruct (match_base_url_groups _ _ Hg) as (v & _ & _ & -> & _).
  unfold base_path. rewrite Hg, components_groups. eauto.
Qed.

(** X2: with no run to fetch, a call with an accepted URL still resolves the
    path and sets up the fetcher, and returns the empty list; no file is
    fetched and the path is not stored, the update being part of the
    loop. *)
Theorem load_data_no_runs (subject : Z) (path : option string) (fu : bool)
        (up : option bool) (base_url : string) (w : world) :
  is_Some (match_base_url base_url) ->
  exists c w',
    load_data subject (RunList []) path fu up base_url w = (Ok [], w')
    /\ files w' = files w /\ config w' = config w
    /\ trace w' = trace w ++ preparation path c.
Proof.
  intros Hm.
  destruct (base_path_accepted (resolve_path path config_key w) base_url Hm) as [bp Hbp].
  destruct (prepare_run path base_url bp w Hbp) as (w0 & Hp & Hf & Hc & Ht & _).
  eexists _, w0. unfold load_data. rewrite (bind_run _ _ _ _ _ Hp).
  repeat split; eauto.
Qed.

Lemma load_data_no_runs_witness :
  exists c w',
    load_data 1 (RunList []) None true (Some true) EEGMI_URL demo_world = (Ok [], w')
    /\ files w' = files demo_world /\ config w' = config demo_world
    /\ trace w' = trace demo_world ++ preparation None c.
Proof. apply load_data_no_runs. vm_compute. eauto. Defined.

Lemma for_each_raise_app {A B} (body : A -> M B) (xs ys : list A) (e : exn)
      (w w' : world) :
  for_each body xs w = (Raise e, w') -> for_each body (xs ++ ys) w = (Raise e, w').
Proof.
  revert w. induction xs as [|x xs IH]; intros w H; [discriminate|].
  cbn [for_each app] in *. unfold bind in *.
  destruct (body x w) as [[y|e1] w1]; [|exact H].
  destruct (for_each body xs w1) as [[zs|e2] w2] eqn:E; [discriminate|].
  inversion H; subst. now rewrite (IH _ E).
Qed.

(** X3: a call that fails stops at the failing run: whatever runs are
    requested after it, the error and the world left behind are the
    same. *)
Theorem load_data_fail_stop (subject : Z) (runs more : list Z) (path : option string)
        (fu : bool) (up : option bool) (base_url : string) (e : exn) (w w' : world) :
  load_data subject (RunList runs) path fu up base_url w = (Raise e, w') ->
  load_data subject (RunList (runs ++ more)) path fu up base_url w = (Raise e, w').
Proof.
  intros H. unfold load_data in *. cbn [run_list] in *.
  unfold bind at 1 in H. unfold bind at 1.
  destruct (prepare path base_url w) as [[c|e1] w0]; [|exact H].
  now apply for_each_raise_app.
Qed.

Lemma load_data_fail_stop_witness :
  load_data 1 (RunList ([4; 5] ++ [10; 14])) None false None EEGMI_URL demo_world
  = (Raise (ValueError "File is not in the registry."),
     (load_data 1 (RunList [4; 5]) None false None EEGMI_URL demo_world).2).
Proof. apply load_data_fail_stop. vm_compute. reflexivity. Defined.


Section Untouched.

Lemma apart_refl (dest : string) (w : world) : apart dest w w.
Proof. split; auto. Qed.

Lemma apart_record (dest : string) (e : event) (w : world) : apart dest w (record e w).
Proof. split; auto. Qed.

Lemma apart_trans (dest : string) (w1 w2 w3 : world) :
  apart dest w1 w2 -> apart dest w2 w3 -> apart dest w1 w3.
Proof.
  intros [F1 C1] [F2 C2]. split; intros x Hx.
  - now rewrite F2, F1.
  - now rewrite C2, C1.
Qed.

Lemma download_apart (retries : nat) (url dest : string) (w w' : world)
      (res : result unit) :
  download retries url dest w = (res, w') -> apart dest w w'.
Proof.
  revert w. induction retries as [|r IH]; intros w H; cbn in H.
  - destruct (remote w (now w) url); inversion H; subst; split; intros x Hx; cbn; auto.
    now rewrite lookup_insert_ne.
  - destruct (remote w (now w) url).
    + inversion H; subst; split; intros x Hx; cbn; auto.
      now rewrite lookup_insert_ne.
    + apply IH in H. exact H.
Qed.

Lemma fetch_apart (f : fetcher) (fname : string) (w w' : world) (res : result string) :
  fetch f fname w = (res, w') -> apart (op_join (f_path f) [fname]) w w'.
Proof.
  intros H. unfold fetch in H.
  rewrite (bind_run _ _ w (record (EvFetch fname) w) tt) in H by reflexivity.
  destruct (f_registry f !! fname) as [h|].
  2:{ inversion H; subst. apply apart_record. }
  set (dest := op_join (f_path f) [fname]) in *.
  rewrite (bind_run (isfile dest) _ _ _ _ eq_refl) in H.
  destruct (bool_decide _).
  - rewrite (bind_run (ret tt) _ _ _ _ eq_refl) in H.
    assert (w' = record (EvFetch fname) w) as ->
        by (destruct (bool_decide _); now inversion H).
    apply apart_record.
  - unfold bind in H.
    destruct (download _ _ _ _) as [[[]|e] w1] eqn:Hd.
    all: apply download_apart in Hd.
    all: assert (w' = w1) as ->
          by (try destruct (bool_decide (files w1 !! dest = Some h)); now inversion H).
    all: exact Hd.
Qed.

Lemma do_path_update_apart (dest p : string) (up : option bool) (w w' : world)
      (res : result unit) :
  _do_path_update p up config_key name w = (res, w') -> apart dest w w'.
Proof.
  unfold _do_path_update. intros H.
  destruct (bool_decide _); [inversion H; subst; apply apart_record|].
  destruct (match up with Some b => b | None => answer w (now w) end);
    inversion H; subst; [|apply apart_record].
  split; intros x Hx; cbn; auto. now rewrite lookup_insert_ne.
Qed.

Variables (subject : Z) (c : context) (up : option bool).
Hypothesis Hc : coherent c.

Lemma fetch_run_apart (fu : bool) (run : Z) (w w' : world) (res : result string) :
  fetch_run subject c fu up run w = (res, w') ->
  apart (destination subject c run) w w'.
Proof.
  unfold fetch_run. set (dest := destination subject c run). intros H.
  assert (Hpre : exists w1 : world,
             fetch_and_update subject c up run w1 = (res, w') /\ apart dest w w1).
  { unfold bind at 1 2 in H.
    destruct fu; [|exists w; split; [exact H|apply apart_refl]].
    unfold isfile, os_remove in H. destruct (files w !! dest) eqn:E.
    - rewrite bool_decide_eq_true_2 in H by eauto. rewrite ?E in H.
      eexists. split; [exact H|]. split; intros x Hx; cbn; auto.
      now rewrite lookup_delete_ne.
    - rewrite bool_decide_eq_false_2 in H by apply is_Some_None.
      exists w. split; [exact H|apply apart_refl]. }
  destruct Hpre as (w1 & H1 & Ha). eapply apart_trans; [exact Ha|]. clear H Ha.
  unfold fetch_and_update, bind in H1.
  destruct (fetch _ _ w1) as [[y|e] w2] eqn:Hf.
  - apply fetch_apart in Hf. pose proof Hc as Hp. unfold coherent in Hp.
    rewrite Hp in Hf. fold (destination subject c run) in Hf. fold dest in Hf.
    eapply apart_trans; [exact Hf|].
    destruct (_do_path_update _ _ _ _ w2) as [[[]|e] w3] eqn:Hu;
      apply (do_path_update_apart dest) in Hu; inversion H1; subst; exact Hu.
  - apply fetch_apart in Hf. pose proof Hc as Hp. unfold coherent in Hp.
    rewrite Hp in Hf. inversion H1; subst. exact Hf.
Qed.

Lemma for_each_apart (fu : bool) (runs : list Z) (p : string) (w w' : world)
      (res : result (list string)) :
  for_each (fetch_run subject c fu up) runs w = (res, w') ->
  (forall run, run ∈ runs -> p <> destination subject c run) ->
  files w' !! p = files w !! p
  /\ (forall k, k <> config_key -> config w' !! k = config w !! k).
Proof.
  revert w w' res. induction runs as [|r runs IH]; intros w w' res H Hp; cbn [for_each] in H.
  - inversion H; subst. auto.
  - unfold bind at 1 in H.
    destruct (fetch_run subject c fu up r w) as [[y|e] w1] eqn:Hr;
      apply fetch_run_apart in Hr as [F1 C1].
    + unfold bind in H.
      destruct (for_each _ runs w1) as [[ys|e] w2] eqn:Hl;
        apply IH in Hl as [F2 C2]; try (intros; apply Hp; now right);
        inversion H; subst;
        (split; [rewrite F2; apply F1, Hp; now left
                |intros k Hk; now rewrite C2, C1]).
    + inversion H; subst. split; [apply F1, Hp; now left|exact C1].
Qed.

End Untouched.

Lemma prepare_same (path : option string) (base_url : string) (w w0 : world)
      (res : result context) :
  prepare path base_url w = (res, w0) -> files w0 = files w /\ config w0 = config w.
Proof.
  unfold prepare. rewrite (bind_run _ _ _ _ _ (get_path_run _ _ _ _)). cbv beta.
  unfold lift, bind at 1.
  destruct (base_path _ _) as [bp|e]; intros H.
  - unfold make_fetcher, pooch_create, resource_stream, load_registry, bind, log, ret in H.
    cbn in H. inversion H; subst; cbn. auto.
  - inversion H; subst; cbn. auto.
Qed.

(** X5: however the call ends, the only files it may have written or
    removed are the destinations of the requested runs, and the only
    configuration entry it may have written is the dataset's key. *)
Theorem load_data_touches_only (subject : Z) (runs : runs_arg) (path : option string)
        (fu : bool) (up : option bool) (base_url : string)
        (res : result (list string)) (w w' : world) (p : string) :
  load_data subject runs path fu up base_url w = (res, w') ->
  (forall bp run,
      base_path (resolve_path path config_key w) base_url = Ok bp ->
      run ∈ run_list runs -> p <> op_join bp [file_part subject run]) ->
  files w' !! p = files w !! p
  /\ (forall k, k <> config_key -> config w' !! k = config w !! k).
Proof.
  unfold load_data. unfold bind at 1.
  destruct (prepare path base_url w) as [[c|e] w0] eqn:Hp; intros H Hother.
  - pose proof (prepare_same _ _ _ _ _ Hp) as [Hf Hcfg].
    apply prepare_ok in Hp as (Hc & Hpath & Hbp & _).
    apply (for_each_apart subject c up Hc _ _ p) in H as [F C].
    + rewrite Hf in F. rewrite Hcfg in C. auto.
    + intros run Hin. unfold destination. apply Hother; [|exact Hin].
      now rewrite <- Hpath.
  - apply prepare_same in Hp as [Hf Hcfg]. inversion H; subst.
    rewrite Hf, Hcfg. auto.
Qed.

Lemma load_data_touches_only_witness :
  files (load_data 1 (RunList [4; 10]) None true (Some true) EEGMI_URL demo_world_cached).2
    !! "/home/user/mne_data/MNE-eegbci-data/files/eegmmidb/1.0.0/S001/S001R14.edf"
  = files demo_world_cached
    !! "/home/user/mne_data/MNE-eegbci-data/files/eegmmidb/1.0.0/S001/S001R14.edf"
  /\ (forall k, k <> config_key ->
        config (load_data 1 (RunList [4; 10]) None true (Some true) EEGMI_URL
                          demo_world_cached).2 !! k
        = config demo_world_cached !! k).
Proof.
  apply (load_data_touches_only 1 (RunList [4; 10]) None true (Some true) EEGMI_URL
           (load_data 1 (RunList [4; 10]) None true (Some true) EEGMI_URL
                      demo_world_cached).1).
  - apply surjective_pairing.
  - intros bp run Hbp Hin. vm_compute in Hbp. inversion Hbp; subst bp.
    apply elem_of_cons in Hin as [->|Hin]; [vm_compute; discriminate|].
    apply elem_of_cons in Hin as [->|Hin]; [vm_compute; discriminate|].
    inversion Hin.
Defined.

(** ** [load_data]: what a call that ends well leaves behind *)

Section Outcome.

Variables (subject : Z) (c : context) (up : option bool).
Hypothesis Hc : coherent c.

Lemma destination_inj (r r' : Z) :
  destination subject c r = destination subject c r' ->
  file_part subject r = file_part subject r'.
Proof.
  unfold destination. rewrite !op_join_file. apply String.app_inj.
Qed.

(** A destination that holds its recorded checksum still does after
    further runs that end well. *)
Lemma for_each_keeps_valid (fu : bool) (runs : list Z) (ps : list string)
      (w w' : world) (r : Z) (h : checksum) :
  for_each (fetch_run subject c fu up) runs w = (Ok ps, w') ->
  f_registry (c_fetcher c) !! file_part subject r = Some h ->
  files w !! destination subject c r = Some h ->
  files w' !! destination subject c r = Some h.
Proof.
  revert ps w. induction runs as [|x runs IH]; intros ps w H Hr Hf; cbn [for_each] in H.
  - inversion H; subst. exact Hf.
  - apply bind_ok in H as (y & w1 & Hx & H).
    apply bind_ok in H as (ys & w2 & Hl & H).
    inversion H; subst; clear H.
    apply (fetch_run_ok subject c up Hc) in Hx as (h' & k & _ & Hr' & Hfiles & _).
    eapply IH; eauto. rewrite Hfiles.
    destruct (decide (destination subject c x = destination subject c r)) as [E|E].
    + rewrite E, lookup_insert_eq. apply destination_inj in E. congruence.
    + now rewrite lookup_insert_ne.
Qed.

(** A loop that ends well: every destination holds its recorded
    checksum, every run cost at most [retries + 1] transfers, and at
    least one when forced. *)
Lemma for_each_outcome (fu : bool) (runs : list Z) (ps : list string) (w w' : world) :
  for_each (fetch_run subject c fu up) runs w = (Ok ps, w') ->
  (forall r, r ∈ runs ->
     exists h, f_registry (c_fetcher c) !! file_part subject r = Some h
               /\ files w' !! destination subject c r = Some h)
  /\ exists its,
      length its = length runs
      /\ trace w' = trace w ++ loop_trace subject c up runs its
      /\ Forall (fun it : bool * nat =>
                   (it.2 <= S (f_retry (c_fetcher c)))%nat
                   /\ (fu = true -> (1 <= it.2)%nat)) its.
Proof.
  revert ps w. induction runs as [|x runs IH]; intros ps w H; cbn [for_each] in H.
  - inversion H; subst. split; [intros r Hin; inversion Hin|].
    exists []. unfold loop_trace. cbn. rewrite app_nil_r. auto.
  - apply bind_ok in H as (y & w1 & Hx & H).
    apply bind_ok in H as (ys & w2 & Hl & H).
    inversion H; subst; clear H.
    apply (fetch_run_ok subject c up Hc) in Hx
      as (h & k & _ & Hr & Hfiles & Ht & _ & _ & _ & Hk).
    destruct (IH _ _ Hl) as (Hall & its & Hlen & Ht' & Hits).
    split.
    + intros r Hin. apply elem_of_cons in Hin as [->|Hin]; [|auto].
      exists h. split; [exact Hr|].
      eapply for_each_keeps_valid; eauto. rewrite Hfiles. apply lookup_insert_eq.
    + eexists ((_, k) :: its). split; [cbn; now rewrite Hlen|]. split.
      * rewrite Ht', Ht. unfold loop_trace. cbn. rewrite <- app_assoc. reflexivity.
      * constructor; [|exact Hits]. cbn [snd]. split.
        -- destruct Hk as [(-> & _)|(Hk & _)]; lia.
        -- intros ->. cbn [andb] in Hk.
           destruct Hk as [(_ & Hrm & Hf)|(Hk & _)]; [|lia].
           rewrite Hf, bool_decide_eq_true_2 in Hrm by eauto. discriminate.
Qed.

Lemma do_path_update_stores (p : string) (w w' : world) :
  _do_path_update p (Some true) config_key name w = (Ok tt, w') ->
  config w' !! config_key = Some p.
Proof.
  unfold _do_path_update. destruct (bool_decide _) eqn:E; intros H; inversion H; subst; cbn.
  - now apply bool_decide_eq_true in E.
  - apply lookup_insert_eq.
Qed.

End Outcome.

(** X6: when the call ends well, every path returned is a file on disk
    whose checksum is the one recorded for its run in the bundled
    registry, also when a run was requested more than once or forced. *)
Theorem load_data_returns_verified (subject : Z) (runs : runs_arg)
        (path : option string) (fu : bool) (up : option bool) (base_url : string)
        (ps : list string) (w w' : world) :
  load_data subject runs path fu up base_url w = (Ok ps, w') ->
  Forall2 (fun run p =>
             exists h, bundled w !! file_part subject run = Some h
                       /\ files w' !! p = Some h)
          (run_list runs) ps.
Proof.
  intros H. apply load_data_ok in H as (c & w0 & Hp & Hl).
  apply prepare_ok in Hp as (Hc & _ & _ & Hf & _).
  pose proof (for_each_ok subject c up Hc _ _ _ _ _ Hl) as (-> & _).
  apply (for_each_outcome subject c up Hc) in Hl as (Hall & _).
  apply Forall2_fmap_r, Forall_Forall2_diag, Forall_forall.
  intros run Hin. destruct (Hall run Hin) as (h & Hr & Hv).
  exists h. split; [|exact Hv].
  rewrite Hf in Hr. cbn in Hr. now rewrite map_union_empty in Hr.
Qed.

Lemma load_data_returns_verified_witness :
  Forall2 (fun run p =>
             exists h, bundled demo_world !! file_part 1 run = Some h
                       /\ files (load_data 1 (RunList [4; 4; 10]) None true None EEGMI_URL
                                           demo_world).2 !! p = Some h)
          [4; 4; 10]
          ["/home/user/mne_data/MNE-eegbci-data/files/eegmmidb/1.0.0/S001/S001R04.edf";
           "/home/user/mne_data/MNE-eegbci-data/files/eegmmidb/1.0.0/S001/S001R04.edf";
           "/home/user/mne_data/MNE-eegbci-data/files/eegmmidb/1.0.0/S001/S001R10.edf"].
Proof.
  apply (load_data_returns_verified 1 (RunList [4; 4; 10]) None true None EEGMI_URL).
  vm_compute. reflexivity.
Defined.

(** X7: in a call that ends well every run costs at most three transfer
    attempts, the two retries of line 179 included, and with
    [force_update] at least one. *)
Theorem load_data_transfers (subject : Z) (runs : runs_arg) (path : option string)
        (fu : bool) (up : option bool) (base_url : string)
        (ps : list string) (w w' : world) :
  load_data subject runs path fu up base_url w = (Ok ps, w') ->
  exists c its,
    length its = length (run_list runs)
    /\ trace w' = trace w ++ preparation path c
                    ++ loop_trace subject c up (run_list runs) its
    /\ Forall (fun it : bool * nat =>
                 (it.2 <= 3)%nat /\ (fu = true -> (1 <= it.2)%nat)) its.
Proof.
  intros H. apply load_data_ok in H as (c & w0 & Hp & Hl).
  apply prepare_ok in Hp as (Hc & _ & _ & Hf & _ & _ & Htr & _).
  apply (for_each_outcome subject c up Hc) in Hl as (_ & its & Hlen & Ht & Hits).
  exists c, its. split; [exact Hlen|]. split.
  - rewrite Ht, Htr, <- app_assoc. reflexivity.
  - rewrite Hf in Hits. exact Hits.
Qed.

Lemma load_data_transfers_witness :
  exists c its,
    length its = length [4; 10; 14]
    /\ trace (load_data 1 (RunList [4; 10; 14]) None true None EEGMI_URL
                        demo_world_cached).2
       = trace demo_world_cached ++ preparation None c
           ++ loop_trace 1 c None [4; 10; 14] its
    /\ Forall (fun it : bool * nat =>
                 (it.2 <= 3)%nat /\ (true = true -> (1 <= it.2)%nat)) its.
Proof.
  apply (load_data_transfers 1 (RunList [4; 10; 14]) None true None EEGMI_URL
           (map (destination 1 demo_context) [4; 10; 14])).
  vm_compute. reflexivity.
Defined.

(** X8: with [update_path=True] and at least one run, a call that ends well
    leaves the resolved path stored under the dataset's key, so that a
    later call without an explicit path resolves to the same
    directory. *)
Theorem load_data_stores_path (subject : Z) (runs : runs_arg) (path : option string)
        (fu : bool) (base_url : string) (ps : list string) (w w' : world) :
  load_data subject runs path fu (Some true) base_url w = (Ok ps, w') ->
  run_list runs <> [] ->
  config w' !! config_key = Some (resolve_path path config_key w)
  /\ resolve_path None config_key w' = resolve_path path config_key w.
Proof.
  intros H Hne. apply load_data_ok in H as (c & w0 & Hp & Hl).
  apply prepare_ok in Hp as (Hc & Hpath & _).
  assert (Hcfg : config w' !! config_key = Some (c_path c)).
  { destruct (run_list runs) as [|r rest]; [congruence|]. cbn [for_each] in Hl.
    apply bind_ok in Hl as (y & w1 & Hr & Hl).
    apply bind_ok in Hl as (ys & w2 & Hrest & Hl).
    inversion Hl; subst; clear Hl.
    assert (H1 : config w1 !! config_key = Some (c_path c)).
    { unfold fetch_run in Hr.
      apply bind_ok in Hr as (b & v1 & _ & Hr).
      apply bind_ok in Hr as ([] & v2 & _ & Hr).
      unfold fetch_and_update in Hr.
      apply bind_ok in Hr as (z & v3 & _ & Hr).
      apply bind_ok in Hr as ([] & v4 & Hu & Hr).
      inversion Hr; subst. eapply do_path_update_stores; eauto. }
    apply (for_each_ok subject c (Some true) Hc) in Hrest as (_ & _ & [-> | ->] & _).
    - exact H1.
    - apply lookup_insert_eq. }
  rewrite <- Hpath. split; [exact Hcfg|].
  unfold resolve_path at 1. now rewrite Hcfg.
Qed.

Lemma load_data_stores_path_witness :
  config (load_data 1 (RunList [4]) (Some "/data") false (Some true) EEGMI_URL
                    demo_world).2 !! config_key
  = Some (resolve_path (Some "/data") config_key demo_world)
  /\ resolve_path None config_key
       (load_data 1 (RunList [4]) (Some "/data") false (Some true) EEGMI_URL demo_world).2
     = resolve_path (Some "/data") config_key demo_world.
Proof.
  apply (load_data_stores_path 1 (RunList [4]) (Some "/data") false EEGMI_URL
           ["/data/MNE-eegbci-data/files/eegmmidb/1.0.0/S001/S001R04.edf"]).
  - vm_compute. reflexivity.
  - discriminate.
Defined.

(** X9: distinct valid runs of a valid subject are returned as distinct
    paths. *)
Theorem load_data_distinct_paths (subject : Z) (runs : runs_arg)
        (path : option string) (fu : bool) (up : option bool) (base_url : string)
        (ps : list string) (w w' : world) :
  load_data subject runs path fu up base_url w = (Ok ps, w') ->
  valid_subject subject -> Forall valid_run (run_list runs) ->
  NoDup (run_list runs) -> NoDup ps.
Proof.
  intros H Hs Hr Hnd. apply load_data_ok in H as (c & w0 & Hp & Hl).
  apply prepare_ok in Hp as (Hc & _).
  apply (for_each_ok subject c up Hc) in Hl as (-> & _).
  rewrite Forall_forall in Hr.
  induction Hnd as [|r rs Hnin Hnd IH]; [constructor|].
  cbn [map]. constructor.
  - intros Hin. apply Hnin. apply list_elem_of_In, in_map_iff in Hin as (r' & E & Hin').
    apply list_elem_of_In in Hin'.
    assert (Hv' : valid_run r') by (apply Hr; now right).
    assert (Hv : valid_run r) by (apply Hr; now left).
    apply destination_inj, file_part_fields in E as [_ E]; auto.
    unfold valid_run in *. apply padded2_inj in E; [now subst|lia|lia].
  - apply IH. intros x Hx. apply Hr. now right.
Qed.

Lemma load_data_distinct_paths_witness :
  NoDup ["/home/user/mne_data/MNE-eegbci-data/files/eegmmidb/1.0.0/S001/S001R04.edf";
         "/home/user/mne_data/MNE-eegbci-data/files/eegmmidb/1.0.0/S001/S001R10.edf";
         "/home/user/mne_data/MNE-eegbci-data/files/eegmmidb/1.0.0/S001/S001R14.edf"].
Proof.
  apply (load_data_distinct_paths 1 (RunList [4; 10; 14]) None false None EEGMI_URL _
           demo_world demo_world_cached).
  - vm_compute. reflexivity.
  - unfold valid_subject. lia.
  - repeat constructor; unfold valid_run; lia.
  - apply (bool_decide_eq_true_1 (NoDup [4; 10; 14])). vm_compute. reflexivity.
Defined.

(** ** [standardize]: standard names of ASCII names

    The channel names of the dataset are written in ASCII.  For such
    names the upper-case mapping is the one below 128, and the standard
    names have the properties below; for other names they depend on the
    character database. *)

Section StandardNames.

Variable upper_high : N -> ustring.

Ltac ascii_cases :=
  unfold UStr.upper_ascii, Spec.is_period;
  repeat match goal with
         | |- context [(?a <=? ?b)%N] => destruct (N.leb_spec a b); cbn [andb]
         | |- context [(?a =? ?b)%N] => destruct (N.eqb_spec a b)
         end;
  try reflexivity; try lia.

Lemma upper_ascii_lt (c : N) : (c < 128)%N -> (UStr.upper_ascii c < 128)%N.
Proof. intros H. ascii_cases. Qed.

Lemma upper_ascii_idem (c : N) :
  UStr.upper_ascii (UStr.upper_ascii c) = UStr.upper_ascii c.
Proof.
  unfold UStr.upper_ascii.
  destruct ((97 <=? c) && (c <=? 122))%N eqn:E; [|now rewrite E].
  apply andb_true_iff in E as [H1 H2]. apply N.leb_le in H1, H2.
  replace (97 <=? c - 32)%N with false by (symmetry; apply N.leb_gt; lia).
  reflexivity.
Qed.

Lemma upper_ascii_period (c : N) :
  Spec.is_period (UStr.upper_ascii c) = Spec.is_period c.
Proof.
  unfold UStr.upper_ascii.
  destruct ((97 <=? c) && (c <=? 122))%N eqn:E; [|reflexivity].
  apply andb_true_iff in E as [H1 H2]. apply N.leb_le in H1, H2.
  unfold Spec.is_period.
  destruct (N.eqb_spec (c - 32) 46), (N.eqb_spec c 46); try reflexivity; lia.
Qed.

(** On an ASCII name [upper] is the mapping below 128, character by
    character. *)
Lemma upper_is_ascii (s : ustring) :
  is_ascii s -> UStr.upper upper_high s = map UStr.upper_ascii s.
Proof.
  induction 1 as [|c s Hc _ IH]; [reflexivity|].
  unfold UStr.upper in *. cbn [flat_map map]. rewrite IH.
  unfold UStr.upper_char. apply N.ltb_lt in Hc. now rewrite Hc.
Qed.

Lemma is_ascii_upper (s : ustring) : is_ascii s -> is_ascii (map UStr.upper_ascii s).
Proof.
  induction 1 as [|c s Hc _ IH]; constructor; [now apply upper_ascii_lt|exact IH].
Qed.

Lemma is_ascii_lstrip (s : ustring) : is_ascii s -> is_ascii (UStr.lstrip s (ustr ".")).
Proof.
  induction 1 as [|c s Hc Hs IH]; [constructor|]. cbn [UStr.lstrip].
  destruct (UStr.mem c (ustr ".")); [exact IH|now constructor].
Qed.

Lemma is_ascii_rstrip (s : ustring) : is_ascii s -> is_ascii (UStr.rstrip s (ustr ".")).
Proof.
  induction 1 as [|c s Hc Hs IH]; [constructor|]. cbn [UStr.rstrip].
  destruct (UStr.rstrip s (ustr ".")).
  - destruct (UStr.mem c (ustr ".")); repeat constructor; exact Hc.
  - now constructor.
Qed.

Lemma is_ascii_strip (s : ustring) : is_ascii s -> is_ascii (UStr.strip s (ustr ".")).
Proof. intros H. now apply is_ascii_rstrip, is_ascii_lstrip. Qed.

Lemma is_ascii_final_Z (s : ustring) : is_ascii s -> is_ascii (Spec.final_Z s).
Proof.
  induction 1 as [|c s Hc Hs IH]; [constructor|]. destruct s as [|d s].
  - cbn. destruct (c =? 90)%N;
      (constructor; [first [exact Hc | reflexivity] | constructor]).
  - change (Spec.final_Z (c :: d :: s)) with (c :: Spec.final_Z (d :: s)).
    now constructor.
Qed.

Lemma is_ascii_leading_FP (s : ustring) : is_ascii s -> is_ascii (Spec.leading_FP s).
Proof.
  intros H. destruct s as [|x [|y r]]; try exact H. unfold Spec.leading_FP.
  destruct ((x =? 70) && (y =? 80))%N; [|exact H].
  inversion H as [|? ? _ Hy]. inversion Hy as [|? ? _ Hr].
  constructor; [reflexivity|]. constructor; [reflexivity|exact Hr].
Qed.

Lemma upper_final_Z (s : ustring) :
  map UStr.upper_ascii (Spec.final_Z s) = map UStr.upper_ascii s.
Proof.
  induction s as [|c s IH]; [reflexivity|]. destruct s as [|d s].
  - cbn. destruct (N.eqb_spec c 90) as [->|]; reflexivity.
  - change (Spec.final_Z (c :: d :: s)) with (c :: Spec.final_Z (d :: s)).
    cbn [map] in *. now rewrite IH.
Qed.

Lemma upper_leading_FP (s : ustring) :
  map UStr.upper_ascii (Spec.leading_FP s) = map UStr.upper_ascii s.
Proof.
  destruct s as [|x [|y r]]; try reflexivity. unfold Spec.leading_FP.
  destruct (N.eqb_spec x 70) as [->|]; [|reflexivity].
  destruct (N.eqb_spec y 80) as [->|]; reflexivity.
Qed.

Lemma upper_idem (s : ustring) :
  map UStr.upper_ascii (map UStr.upper_ascii s) = map UStr.upper_ascii s.
Proof.
  induction s as [|c s IH]; [reflexivity|]. cbn [map].
  now rewrite upper_ascii_idem, IH.
Qed.

Lemma head_ok_upper (s : ustring) : head_ok (map UStr.upper_ascii s) = head_ok s.
Proof. destruct s; [reflexivity|]. cbn. now rewrite upper_ascii_period. Qed.

Lemma last_ok_upper (s : ustring) : last_ok (map UStr.upper_ascii s) = last_ok s.
Proof.
  induction s as [|c s IH]; [reflexivity|]. destruct s as [|d s].
  - cbn. now rewrite upper_ascii_period.
  - exact IH.
Qed.

Lemma head_ok_final_Z (s : ustring) : head_ok (Spec.final_Z s) = head_ok s.
Proof.
  destruct s as [|c [|d s]]; try reflexivity. cbn.
  destruct (N.eqb_spec c 90) as [->|]; reflexivity.
Qed.

Lemma last_ok_final_Z (s : ustring) : last_ok (Spec.final_Z s) = last_ok s.
Proof.
  induction s as [|c s IH]; [reflexivity|]. destruct s as [|d s].
  - cbn. destruct (N.eqb_spec c 90) as [->|]; reflexivity.
  - change (Spec.final_Z (c :: d :: s)) with (c :: Spec.final_Z (d :: s)).
    change (last_ok (c :: d :: s)) with (last_ok (d :: s)).
    rewrite <- IH. destruct (Spec.final_Z (d :: s)) eqn:E; [|reflexivity].
    destruct s; cbn in E; [destruct (d =? 90)%N|]; discriminate.
Qed.

Lemma head_ok_leading_FP (s : ustring) : head_ok (Spec.leading_FP s) = head_ok s.
Proof.
  destruct s as [|x [|y r]]; try reflexivity. unfold Spec.leading_FP.
  destruct (N.eqb_spec x 70) as [->|]; [|reflexivity].
  destruct (y =? 80)%N; reflexivity.
Qed.

Lemma last_ok_leading_FP (s : ustring) : last_ok (Spec.leading_FP s) = last_ok s.
Proof.
  destruct s as [|x [|y r]]; try reflexivity. unfold Spec.leading_FP.
  destruct (x =? 70)%N; [|reflexivity].
  destruct (N.eqb_spec y 80) as [->|]; [|reflexivity]. now destruct r.
Qed.

Lemma lstrip_head_ok (s : ustring) : head_ok (UStr.lstrip s (ustr ".")) = true.
Proof.
  induction s as [|c s IH]; [reflexivity|]. cbn [UStr.lstrip]. rewrite mem_period.
  destruct (Spec.is_period c) eqn:E; [exact IH|]. cbn. now rewrite E.
Qed.

Lemma lstrip_id (s : ustring) : head_ok s = true -> UStr.lstrip s (ustr ".") = s.
Proof.
  destruct s as [|c s]; [reflexivity|]. cbn [head_ok UStr.lstrip]. rewrite mem_period.
  now destruct (Spec.is_period c).
Qed.

Lemma rstrip_last_ok (s : ustring) : last_ok (UStr.rstrip s (ustr ".")) = true.
Proof.
  induction s as [|c s IH]; [reflexivity|]. cbn [UStr.rstrip]. rewrite mem_period.
  destruct (UStr.rstrip s (ustr ".")) as [|d r] eqn:E.
  - destruct (Spec.is_period c) eqn:Ec; [reflexivity|]. cbn. now rewrite Ec.
  - exact IH.
Qed.

Lemma rstrip_id (s : ustring) : last_ok s = true -> UStr.rstrip s (ustr ".") = s.
Proof.
  induction s as [|c s IH]; [reflexivity|]. intros H. cbn [UStr.rstrip].
  rewrite mem_period. destruct s as [|d s].
  - cbn in *. now destruct (Spec.is_period c).
  - rewrite IH by exact H. reflexivity.
Qed.

Lemma rstrip_head_ok (s : ustring) :
  head_ok s = true -> head_ok (UStr.rstrip s (ustr ".")) = true.
Proof.
  destruct s as [|c s]; [reflexivity|]. cbn [head_ok UStr.rstrip]. rewrite mem_period.
  intros H. destruct (UStr.rstrip s (ustr ".")); [|exact H].
  destruct (Spec.is_period c) eqn:E; [discriminate|]. cbn. now rewrite E.
Qed.

Lemma strip_clean (s : ustring) :
  head_ok (UStr.strip s (ustr ".")) = true /\ last_ok (UStr.strip s (ustr ".")) = true.
Proof.
  unfold UStr.strip. split; [apply rstrip_head_ok, lstrip_head_ok|apply rstrip_last_ok].
Qed.

Lemma strip_id (s : ustring) :
  head_ok s = true -> last_ok s = true -> UStr.strip s (ustr ".") = s.
Proof. intros Hh Hl. unfold UStr.strip. now rewrite lstrip_id, rstrip_id. Qed.

(** The standard name of an ASCII name, with the upper-case mapping
    below 128 written out. *)
Lemma std_name_ascii_form (s : ustring) :
  is_ascii s ->
  std_name upper_high s
  = Spec.leading_FP (Spec.final_Z (map UStr.upper_ascii (UStr.strip s (ustr ".")))).
Proof.
  intros H. rewrite std_name_standard. unfold Spec.standard_name.
  rewrite <- strip_periods, upper_is_ascii by now apply is_ascii_strip.
  reflexivity.
Qed.

Lemma std_name_is_ascii (s : ustring) : is_ascii s -> is_ascii (std_name upper_high s).
Proof.
  intros H. rewrite std_name_ascii_form by exact H.
  now apply is_ascii_leading_FP, is_ascii_final_Z, is_ascii_upper, is_ascii_strip.
Qed.

Lemma std_name_clean (s : ustring) :
  is_ascii s ->
  head_ok (std_name upper_high s) = true /\ last_ok (std_name upper_high s) = true.
Proof.
  intros H. rewrite std_name_ascii_form by exact H.
  rewrite head_ok_leading_FP, head_ok_final_Z, head_ok_upper.
  rewrite last_ok_leading_FP, last_ok_final_Z, last_ok_upper.
  apply strip_clean.
Qed.

Lemma upper_std_name (s : ustring) :
  is_ascii s ->
  map UStr.upper_ascii (std_name upper_high s)
  = map UStr.upper_ascii (UStr.strip s (ustr ".")).
Proof.
  intros H. rewrite std_name_ascii_form by exact H.
  now rewrite upper_leading_FP, upper_final_Z, upper_idem.
Qed.

Lemma std_name_twice (s : ustring) :
  is_ascii s -> std_name upper_high (std_name upper_high s) = std_name upper_high s.
Proof.
  intros H. destruct (std_name_clean s H) as [Hh Hl].
  rewrite (std_name_ascii_form (std_name upper_high s)) by now apply std_name_is_ascii.
  rewrite (strip_id _ Hh Hl), upper_std_name by exact H.
  symmetry. now apply std_name_ascii_form.
Qed.

End StandardNames.

(** X11: the standard name of an ASCII name has no period at either
    end: stripping it again changes nothing. *)
Theorem std_name_stripped (upper_high : N -> ustring) (s : ustring) :
  is_ascii s ->
  UStr.strip (std_name upper_high s) (ustr ".") = std_name upper_high s.
Proof.
  intros H. apply strip_id; rewrite std_name_ascii_form by exact H.
  - rewrite head_ok_leading_FP, head_ok_final_Z, head_ok_upper. apply strip_clean.
  - rewrite last_ok_leading_FP, last_ok_final_Z, last_ok_upper. apply strip_clean.
Qed.

Lemma std_name_stripped_witness :
  UStr.strip (std_name (fun c => [c]) (ustr "..Fpz.")) (ustr ".")
  = std_name (fun c => [c]) (ustr "..Fpz.").
Proof.
  apply std_name_stripped. unfold is_ascii.
  repeat (constructor; [reflexivity|]). constructor.
Defined.

(** X12: on ASCII names standardising is idempotent: a standard name is
    mapped to itself, so [standardize] applied to the standard names of
    ASCII names is the identity on them. *)
Theorem std_name_idempotent (upper_high : N -> ustring)
        (ch_names : list ustring) (s n : ustring) :
  is_ascii s -> Forall is_ascii ch_names ->
  std_name upper_high (std_name upper_high s) = std_name upper_high s
  /\ standardize upper_high (map (std_name upper_high) ch_names) !! n
     = if bool_decide (n ∈ map (std_name upper_high) ch_names) then Some n else None.
Proof.
  intros Hs Hall. split; [now apply std_name_twice|].
  unfold standardize. rewrite rename_loop_lookup, lookup_empty.
  destruct (bool_decide (n ∈ map (std_name upper_high) ch_names)) eqn:E; [|reflexivity].
  apply bool_decide_eq_true, list_elem_of_In, in_map_iff in E as (m & <- & Hin).
  rewrite std_name_twice; [reflexivity|].
  rewrite Forall_forall in Hall. apply Hall, list_elem_of_In, Hin.
Qed.

Lemma std_name_idempotent_witness :
  std_name (fun c => [c]) (std_name (fun c => [c]) (ustr "fpz."))
  = std_name (fun c => [c]) (ustr "fpz.")
  /\ standardize (fun c => [c]) (map (std_name (fun c => [c])) [ustr "cz"; ustr "t7"])
       !! ustr "Cz"
     = if bool_decide (ustr "Cz" ∈ map (std_name (fun c => [c])) [ustr "cz"; ustr "t7"])
       then Some (ustr "Cz") else None.
Proof.
  apply std_name_idempotent; unfold is_ascii.
  - repeat (constructor; [reflexivity|]). constructor.
  - repeat (constructor; [repeat (constructor; [reflexivity|]); constructor|]).
    constructor.
Defined.

(** X13: the standard name of an ASCII name differs from the stripped
    name in letter case only, and two ASCII names get the same standard
    name exactly when they are equal up to letter case once the outer
    periods are stripped. *)
Theorem std_name_collision (upper_high : N -> ustring) (s s' : ustring) :
  is_ascii s -> is_ascii s' ->
  UStr.upper upper_high (std_name upper_high s)
  = UStr.upper upper_high (UStr.strip s (ustr "."))
  /\ (std_name upper_high s = std_name upper_high s'
      <-> UStr.upper upper_high (UStr.strip s (ustr "."))
          = UStr.upper upper_high (UStr.strip s' (ustr "."))).
Proof.
  intros Hs Hs'.
  assert (Hu : forall x, is_ascii x ->
                 UStr.upper upper_high (std_name upper_high x)
                 = UStr.upper upper_high (UStr.strip x (ustr "."))).
  { intros x Hx.
    rewrite !upper_is_ascii by (apply std_name_is_ascii || apply is_ascii_strip; exact Hx).
    now apply upper_std_name. }
  split; [now apply Hu|]. split.
  - intros H. rewrite <- !Hu by assumption. now rewrite H.
  - intros H. unfold std_name. cbv zeta. now rewrite H.
Qed.

Lemma std_name_collision_witness :
  UStr.upper (fun c => [c]) (std_name (fun c => [c]) (ustr "fp1."))
  = UStr.upper (fun c => [c]) (UStr.strip (ustr "fp1.") (ustr "."))
  /\ (std_name (fun c => [c]) (ustr "fp1.") = std_name (fun c => [c]) (ustr ".FP1")
      <-> UStr.upper (fun c => [c]) (UStr.strip (ustr "fp1.") (ustr "."))
          = UStr.upper (fun c => [c]) (UStr.strip (ustr ".FP1") (ustr "."))).
Proof.
  apply std_name_collision; unfold is_ascii;
    repeat (constructor; [reflexivity|]); constructor.
Defined.

(** ** Working from the cache *)

(** X10: without [force_update], a call whose files are all cached and valid
    ends well whatever the server does: it returns the cached paths,
    transfers nothing and leaves the files as they are. *)
Theorem load_data_offline (subject : Z) (runs : runs_arg) (path : option string)
        (up : option bool) (base_url bp : string) (w : world) :
  base_path (resolve_path path config_key w) base_url = Ok bp ->
  (forall run, run ∈ run_list runs ->
     exists h, bundled w !! file_part subject run = Some h
               /\ files w !! op_join bp [file_part subject run] = Some h) ->
  exists w' evs,
    load_data subject runs path false up base_url w
    = (Ok (map (fun run => op_join bp [file_part subject run]) (run_list runs)), w')
    /\ files w' = files w
    /\ trace w' = trace w ++ evs
    /\ forallb (fun e => negb (is_transfer e)) evs = true.
Proof.
  intros Hbp Hall.
  destruct (prepare_run path base_url bp w Hbp) as (w0 & Hp & Hf & _ & Ht & _).
  set (c := Context (resolve_path path config_key w) bp
                    (Fetcher bp base_url 2 (bundled w ∪ ∅))) in *.
  assert (Hc : coherent c) by reflexivity.
  destruct (for_each_valid subject c up Hc (run_list runs) w0)
    as (w2 & Hl & Hf2 & Ht2 & _).
  { intros run Hin. destruct (Hall run Hin) as (h & Hr & Hv).
    exists h. cbn. rewrite map_union_empty, Hf. auto. }
  exists w2. eexists. unfold load_data. rewrite (bind_run _ _ _ _ _ Hp).
  split; [exact Hl|]. split; [congruence|]. split.
  - rewrite Ht2, Ht, <- app_assoc. reflexivity.
  - rewrite forallb_app, loop_trace_quiet. reflexivity.
Qed.

Lemma load_data_offline_witness :
  exists w' evs,
    load_data 1 (RunList [14; 4]) None false None EEGMI_URL demo_world_cached
    = (Ok (map (fun run =>
                  op_join "/home/user/mne_data/MNE-eegbci-data/files/eegmmidb/1.0.0"
                          [file_part 1 run]) [14; 4]), w')
    /\ files w' = files demo_world_cached
    /\ trace w' = trace demo_world_cached ++ evs
    /\ forallb (fun e => negb (is_transfer e)) evs = true.
Proof.
  apply (load_data_offline 1 (RunList [14; 4]) None None EEGMI_URL).
  - vm_compute. reflexivity.
  - intros run Hin.
    apply elem_of_cons in Hin as [->|Hin]; [exists 14%N; split; vm_compute; reflexivity|].
    apply elem_of_cons in Hin as [->|Hin]; [exists 4%N; split; vm_compute; reflexivity|].
    inversion Hin.
Defined.

(** ** [data_path] in the demo world *)

Lemma data_path_cached_witness :
  exists w',
    data_path demo_url_to_local_path demo_fetch_file demo_isdir demo_makedirs
              demo_legacy_url (Some "/d") false None demo_legacy_cached
    = (Ok ["/d/MNE-eegbci-data/S001R01.edf"], w')
    /\ files w' = files demo_legacy_cached
    /\ trace w' = trace demo_legacy_cached
                    ++ [EvGetPath (Some "/d") config_key name;
                        EvPathUpdate (resolve_path (Some "/d") config_key demo_legacy_cached)
                                     None config_key name].
Proof.
  apply (data_path_cached demo_url_to_local_path demo_fetch_file demo_isdir demo_makedirs
           demo_legacy_url (Some "/d") None "/d/MNE-eegbci-data/S001R01.edf" 7%N
           demo_legacy_cached); vm_compute; reflexivity.
Defined.

Lemma data_path_forced_witness :
  data_path demo_url_to_local_path demo_fetch_file demo_isdir demo_makedirs
            demo_legacy_url (Some "/d") true None demo_legacy_cached
  = (there <- demo_isdir (op_dirname "/d/MNE-eegbci-data/S001R01.edf") ;;
     (if negb there then demo_makedirs (op_dirname "/d/MNE-eegbci-data/S001R01.edf")
      else ret tt) ;;;
     demo_fetch_file demo_legacy_url "/d/MNE-eegbci-data/S001R01.edf" ;;;
     _do_path_update (resolve_path (Some "/d") config_key demo_legacy_cached) None
                     config_key name ;;;
     ret ["/d/MNE-eegbci-data/S001R01.edf"])
      (record (EvRemove "/d/MNE-eegbci-data/S001R01.edf")
              (set_files (delete "/d/MNE-eegbci-data/S001R01.edf")
                         (record (EvGetPath (Some "/d") config_key name)
                                 demo_legacy_cached))).
Proof.
  apply (data_path_forced demo_url_to_local_path demo_fetch_file demo_isdir demo_makedirs
           demo_legacy_url (Some "/d") None "/d/MNE-eegbci-data/S001R01.edf" 7%N
           demo_legacy_cached); vm_compute; reflexivity.
Defined.

Lemma data_path_missing_witness :
  data_path demo_url_to_local_path demo_fetch_file demo_isdir demo_makedirs
            demo_legacy_url (Some "/d") true None demo_world
  = data_path demo_url_to_local_path demo_fetch_file demo_isdir demo_makedirs
              demo_legacy_url (Some "/d") false None demo_world.
Proof.
  apply (data_path_missing demo_url_to_local_path demo_fetch_file demo_isdir demo_makedirs
           demo_legacy_url (Some "/d") None "/d/MNE-eegbci-data/S001R01.edf" demo_world);
    vm_compute; reflexivity.
Defined.

Lemma data_path_singleton_witness :
  exists dest,
    demo_url_to_local_path demo_legacy_url
      (op_join (resolve_path (Some "/d") config_key demo_world) ["MNE-eegbci-data"])
    = Ok dest
    /\ ["/d/MNE-eegbci-data/S001R01.edf"] = [dest].
Proof.
  apply (data_path_singleton demo_url_to_local_path demo_fetch_file demo_isdir
           demo_makedirs demo_legacy_url (Some "/d") true (Some true) _ demo_world
           (data_path demo_url_to_local_path demo_fetch_file demo_isdir demo_makedirs
                      demo_legacy_url (Some "/d") true (Some true) demo_world).2).
  vm_compute. reflexivity.
Defined.
